(** * meta-matter: front-matter detection and extraction (index.js)

    A shallow embedding of [matter], [matter.test], [matter.readFileSync],
    [matter.readFile], the parsers [matter.parsers.yaml] and
    [matter.parsers.toml] and the helpers [formatString], [formatDelimiters]
    and [formatOptions], with the properties the specification states about
    them.

    JavaScript strings are sequences of UTF-16 code units; a code unit is a
    number [N], a string a [list N].  Objects and arrays live in a store and
    are passed by reference, so that the in-place updates of
    [formatOptions] and [formatDelimiters] are visible to the caller; an
    object or an array may refuse an assignment (a frozen one does), which
    throws a TypeError in strict mode.  A function is a reference to code
    that may read and write the whole store. *)

From Stdlib Require Import NArith Ascii String Lia.
From stdpp Require Import base option list gmap.

Set Default Proof Using "Type".

(** ** Strings *)

Abbreviation jsstring := (list N).

Definition LF : N := 10.
Definition BOM : N := 65279.  (* 0xFEFF *)

(** [js "abc"] is the JavaScript string with the code units of an ASCII
    literal. *)
Definition js (s : string) : jsstring :=
  N_of_ascii <$> list_ascii_of_string s.

(** The characters matched by [\s] in a regular expression, which are also
    the ones [String.prototype.trim] removes: ECMAScript's WhiteSpace and
    LineTerminator productions. *)
Definition isWhiteSpace (c : N) : bool :=
  ((9 <=? c) && (c <=? 13) || (c =? 32) || (c =? 160) || (c =? 5760)
   || (8192 <=? c) && (c <=? 8202) || (c =? 8232) || (c =? 8233)
   || (c =? 8239) || (c =? 8287) || (c =? 12288) || (c =? 65279))%N.

Fixpoint trimStart (s : jsstring) : jsstring :=
  match s with
  | c :: s' => if isWhiteSpace c then trimStart s' else s
  | [] => []
  end.

Definition trimEnd (s : jsstring) : jsstring :=
  reverse (trimStart (reverse s)).

(** [s.trim()] *)
Definition trim (s : jsstring) : jsstring := trimEnd (trimStart s).

(** [s.substr(start)] and [s.substr(start, len)] for the non-negative
    arguments the program passes. *)
Definition substr_from (s : jsstring) (start : nat) : jsstring := drop start s.
Definition substr (s : jsstring) (start len : nat) : jsstring :=
  take len (drop start s).

(** [startsAt needle s]: [needle] occurs at the beginning of [s]. *)
Definition startsAt (needle s : jsstring) : bool :=
  bool_decide (take (length needle) s = needle).

(** [indexOf_at rest needle k] searches [rest], the part of the string that
    starts at index [k]. *)
Fixpoint indexOf_at (rest needle : jsstring) (k : nat) : option nat :=
  if startsAt needle rest then Some k
  else match rest with
       | [] => None
       | _ :: rest' => indexOf_at rest' needle (S k)
       end.

(** [s.indexOf(needle, pos)]; [None] stands for [-1].  The position is
    clamped to the length of the string, as the language defines. *)
Definition indexOf (s needle : jsstring) (pos : nat) : option nat :=
  let p := pos `min` length s in
  indexOf_at (drop p s) needle p.

(** ** Detection, as [matter] does it (index.js, lines 32 to 57) *)

Inductive detection : Type :=
| Absent
| Present (dataStart dataEnd bodyStart : nat).

(** The [while] loop of lines 48 to 53.  [rest] is [str.substr(bodyStart)]:
    the loop reads [str[bodyStart]] and advances by one.  [None]: a
    character that is not white space was met ([return result]). *)
Fixpoint matter_scan (rest : jsstring) (bodyStart : nat) : option nat :=
  match rest with
  | [] => Some bodyStart
  | c :: rest' =>
      if (c =? LF)%N then Some bodyStart
      else if negb (isWhiteSpace c) then None
      else matter_scan rest' (S bodyStart)
  end.

Definition matter_locate (loose : bool) (header footer str : jsstring)
  : detection :=
  let strict := negb loose in
  if negb (bool_decide (substr str 0 (length header) = header))
     || (negb loose && (length header <? length str)
         && negb (bool_decide (str !! length header = Some LF))
         && bool_decide (str !! length header = last header))
  then Absent
  else
    match indexOf str [LF] (length header) with
    | None => Absent
    | Some dataStart =>
        match indexOf str (LF :: footer) dataStart with
        | None => Absent
        | Some dataEnd =>
            let bodyStart := dataEnd + 1 + length footer in
            let scanned :=
              if strict && (bodyStart <? length str) then
                if negb (bool_decide (str !! bodyStart = Some LF))
                   && bool_decide (str !! bodyStart = last footer)
                then None
                else matter_scan (substr_from str bodyStart) bodyStart
              else Some bodyStart in
            match scanned with
            | None => Absent
            | Some bodyStart =>
                let bodyStart :=
                  if bool_decide (str !! bodyStart = Some LF)
                  then S bodyStart else bodyStart in
                Present dataStart dataEnd bodyStart
            end
        end
    end.

(** ** Detection, as [matter.test] does it (index.js, lines 105 to 128) *)

(** The [while] loop of lines 121 to 126; [false] is [return false]. *)
Fixpoint test_scan (rest : jsstring) : bool :=
  match rest with
  | [] => true
  | c :: rest' =>
      if (c =? LF)%N then true
      else if negb (isWhiteSpace c) then false
      else test_scan rest'
  end.

Definition test_locate (strict : bool) (header footer str : jsstring) : bool :=
  if negb (bool_decide (substr str 0 (length header) = header))
     || (strict && (length header <? length str)
         && negb (bool_decide (str !! length header = Some LF))
         && bool_decide (str !! length header = last header))
  then false
  else
    match indexOf str [LF] (length header) with
    | None => false
    | Some dataStart =>
        match indexOf str (LF :: footer) dataStart with
        | None => false
        | Some dataEnd =>
            let bodyStart := dataEnd + 1 + length footer in
            if strict && (bodyStart <? length str) then
              if negb (bool_decide (str !! bodyStart = Some LF))
                 && bool_decide (str !! bodyStart = last footer)
              then false
              else test_scan (substr_from str bodyStart)
            else true
        end
    end.

(** ** Values, the store and the effects of the program *)

Abbreviation loc := positive.

(** A JavaScript value.  Objects, arrays and functions are references: an
    object or an array into the store, a function to its code, which the
    engine runs (see [call] below). *)
Inductive value : Type :=
| VUndefined
| VNull
| VBool (b : bool)
| VNum (n : Z)
| VStr (s : jsstring)
| VObj (l : loc)
| VArr (l : loc)
| VFun (f : loc).

(** How the call of a function ends: it returns a value or throws one. *)
Inductive presult : Type :=
| Returns (v : value)
| Throws (v : value).

(** [v != null] *)
Definition nonnull (v : value) : bool :=
  match v with
  | VUndefined | VNull => false
  | _ => true
  end.

(** [Boolean(v)] *)
Definition truthy (v : value) : bool :=
  match v with
  | VUndefined | VNull => false
  | VBool b => b
  | VNum n => negb (n =? 0)%Z
  | VStr s => negb (bool_decide (s = []))
  | VObj _ | VArr _ | VFun _ => true
  end.

(** [typeof v === 'string'] *)
Definition is_string (v : value) : bool :=
  match v with VStr _ => true | _ => false end.

(** What [matter] returns: [{src: ..., data: ..., body: ...}]. *)
Record result : Type := Result { src : jsstring; data : value; body : jsstring }.

(** The errors the program throws, and the ones it lets through. *)
Inductive error : Type :=
| ErrNotString                 (* 'The first argument of matter() must be of type String.' *)
| ErrLang                      (* 'The option "lang" must be a string.' *)
| ErrDelims                    (* 'The option "delims" is invalid.' *)
| ErrNoParser (lang : jsstring) (* 'No parser found for the language: ' + lang *)
| ErrCallback                  (* 'matter.readFile needs a callback function.' *)
| ErrThrown (v : value)        (* thrown by a parser, not caught *)
| ErrFs (e : value)            (* thrown by fs.realpathSync *)
| ErrType.                     (* a TypeError of the language *)

(** An object of the store: its properties, and the names whose assignment
    the engine refuses (the file is in strict mode, line 1, where such an
    assignment throws a TypeError): every name for a frozen object, the
    absent ones for an object that is not extensible, the read-only ones. *)
Record object : Type := Object {
  props : gmap jsstring value;
  readonly : jsstring -> bool
}.

(** An array of the store: its elements, and the indices whose assignment
    the engine refuses. *)
Record array : Type := Array {
  elems : list value;
  fixed : nat -> bool
}.

(** The store: objects, arrays, the shared registry [matter.parsers] and the
    module variables [fm_yaml] and [fm_toml] of line 235 ([true] once the
    library is loaded); with it, the parser calls made so far and what the
    callback of [matter.readFile] has been handed so far. *)
Record state : Type := MkState {
  obj_store : gmap loc object;
  arr_store : gmap loc array;
  registry : gmap jsstring value;
  fm_yaml : bool;
  fm_toml : bool;
  calls : list (jsstring * bool);
  delivered : list (value * option (result * jsstring))
}.

(** What the objects and the arrays hold. *)
Definition objs (st : state) : gmap loc (gmap jsstring value) :=
  props <$> obj_store st.

Definition arrs (st : state) : gmap loc (list value) :=
  elems <$> arr_store st.

(** A store of ordinary objects and arrays, which accept every assignment,
    with no library loaded yet. *)
Definition State (objs : gmap loc (gmap jsstring value))
    (arrs : gmap loc (list value)) (registry : gmap jsstring value)
    (calls : list (jsstring * bool))
    (delivered : list (value * option (result * jsstring))) : state :=
  MkState ((fun p => Object p (fun _ => false)) <$> objs)
          ((fun l => Array l (fun _ => false)) <$> arrs)
          registry false false calls delivered.

(** Computations that read and write the store and may throw.  What was
    written before a [throw] stays written. *)
Definition M (A : Type) : Type := state -> (error + A) * state.

Definition ret {A} (a : A) : M A := fun st => (inr a, st).
Definition throw {A} (e : error) : M A := fun st => (inl e, st).
Definition bind {A B} (m : M A) (k : A -> M B) : M B :=
  fun st => match m st with
            | (inl e, st') => (inl e, st')
            | (inr a, st') => k a st'
            end.

Notation "x <- m ;; k" := (bind m (fun x => k))
  (at level 100, m at next level, right associativity).
Notation "m ;;; k" := (bind m (fun _ => k))
  (at level 100, right associativity).

(** [o[k]] for an object of the store.  A property that is absent reads
    [undefined]; properties inherited from a prototype are not modelled. *)
Definition obj_get (st : state) (o : loc) (k : jsstring) : value :=
  default VUndefined (objs st !! o ≫= fun props => props !! k).

Definition getprop (o : loc) (k : jsstring) : M value :=
  fun st => (inr (obj_get st o k), st).

(** The engine refuses [o[k] = v]. *)
Definition obj_locked (st : state) (o : loc) (k : jsstring) : bool :=
  from_option (fun x => readonly x k) false (obj_store st !! o).

(** [o[k] = v], when the engine accepts it. *)
Definition obj_set (st : state) (o : loc) (k : jsstring) (v : value) : state :=
  let x := default (Object ∅ (fun _ => false)) (obj_store st !! o) in
  MkState (<[o := Object (<[k := v]> (props x)) (readonly x)]> (obj_store st))
          (arr_store st) (registry st) (fm_yaml st) (fm_toml st)
          (calls st) (delivered st).

Definition setprop (o : loc) (k : jsstring) (v : value) : M unit :=
  fun st => if obj_locked st o k then (inl ErrType, st)
            else (inr tt, obj_set st o k v).

(** [a[i]]: [undefined] past the end. *)
Definition arr_get (st : state) (a : loc) (i : nat) : value :=
  default VUndefined (default [] (arrs st !! a) !! i).

Definition getelem (a : loc) (i : nat) : M value :=
  fun st => (inr (arr_get st a i), st).

(** [a[i] = v] on a list of elements: an index past the end extends the
    array. *)
Definition list_assign (l : list value) (i : nat) (v : value) : list value :=
  if i <? length l then <[i := v]> l
  else l ++ replicate (i - length l) VUndefined ++ [v].

(** The engine refuses [a[i] = v]. *)
Definition arr_locked (st : state) (a : loc) (i : nat) : bool :=
  from_option (fun x => fixed x i) false (arr_store st !! a).

(** The array [a] gets the elements [l]; an array that is new accepts every
    assignment. *)
Definition arr_write (st : state) (a : loc) (l : list value) : state :=
  let x := default (Array [] (fun _ => false)) (arr_store st !! a) in
  MkState (obj_store st) (<[a := Array l (fixed x)]> (arr_store st))
          (registry st) (fm_yaml st) (fm_toml st) (calls st) (delivered st).

Definition arr_set (st : state) (a : loc) (i : nat) (v : value) : state :=
  arr_write st a (list_assign (default [] (arrs st !! a)) i v).

Definition setelem (a : loc) (i : nat) (v : value) : M unit :=
  fun st => if arr_locked st a i then (inl ErrType, st)
            else (inr tt, arr_set st a i v).

(** An array literal [[v1, ...]]: a new array at an unused location. *)
Definition new_array (vs : list value) : M loc :=
  fun st => let a := fresh (dom (arrs st)) in (inr a, arr_write st a vs).

(** An object literal: a new object at an unused location, which accepts
    every assignment. *)
Definition obj_write (st : state) (o : loc) (props : gmap jsstring value)
  : state :=
  MkState (<[o := Object props (fun _ => false)]> (obj_store st)) (arr_store st)
          (registry st) (fm_yaml st) (fm_toml st) (calls st) (delivered st).

Definition new_object (props : gmap jsstring value) : M loc :=
  fun st => let o := fresh (dom (objs st)) in (inr o, obj_write st o props).

(** [matter.parsers[lang]] *)
Definition registered (lang : jsstring) : M value :=
  fun st => (inr (default VUndefined (registry st !! lang)), st).

(** The code of a function that is used as a parser: called with the
    metadata text and the [loose] flag of the object [{loose: opts.loose}],
    it does what it likes to the store, and returns a value or throws one. *)
Definition parser : Type := jsstring -> bool -> state -> presult * state.

(** The record of the parser calls, which the program keeps. *)
Definition log_call (st : state) (text : jsstring) (loose : bool) : state :=
  MkState (obj_store st) (arr_store st) (registry st) (fm_yaml st) (fm_toml st)
          (calls st ++ [(text, loose)]) (delivered st).

(** The store as a function has left it, [st'], with the two records of
    [st], which are not the function's to write. *)
Definition keep_records (st st' : state) : state :=
  MkState (obj_store st') (arr_store st') (registry st') (fm_yaml st')
          (fm_toml st') (calls st) (delivered st).

(** [parse(data, {loose: loose})], for the code [p] of [parse]: the call is
    recorded. *)
Definition call (p : parser) (text : jsstring) (loose : bool) : M value :=
  fun st => let out := p text loose st in
            (match out.1 with
             | Returns v => inr v
             | Throws e => inl (ErrThrown e)
             end, log_call (keep_records st out.2) text loose).

(** [callback(err, result)] of [matter.readFile]: the call is recorded. *)
Definition log_callback (st : state) (err : value)
    (res : option (result * jsstring)) : state :=
  MkState (obj_store st) (arr_store st) (registry st) (fm_yaml st) (fm_toml st)
          (calls st) (delivered st ++ [(err, res)]).

Definition callback (err : value) (res : option (result * jsstring)) : M unit :=
  fun st => (inr tt, log_callback st err res).

(** ** The program *)

Definition p_loose : jsstring := js "loose".
Definition p_lang : jsstring := js "lang".
Definition p_delims : jsstring := js "delims".
Definition p_parsers : jsstring := js "parsers".

(** The [opts] argument: [undefined] or [null], an object of the store, or
    a primitive value (a boolean, a number or a string), which has none of
    the properties the program reads. *)
Inductive optarg : Type :=
| NoOpts
| Opts (o : loc)
| OptsPrim.

(** [formatString] (lines 178 to 187) *)
Definition formatString (str : value) : M jsstring :=
  match str with
  | VStr s =>
      match s with
      | c :: s' => if (c =? BOM)%N then ret s' else ret s
      | [] => ret s
      end
  | _ => throw ErrNotString
  end.

(** [formatDelimiters] (lines 189 to 204); [None] is the [null] it returns
    when [nothrow] is set.  [formatDelimiters_fill] is lines 193 to 203, which
    work on the array [delims] has become. *)
Definition formatDelimiters_fill (a : loc) (nothrow : bool) : M (option loc) :=
  d0 <- getelem a 0 ;;
  d1 <- getelem a 1 ;;
  setelem a 0 (if nonnull d0 then d0
               else if nonnull d1 then d1 else VStr (js "---")) ;;;
  d0 <- getelem a 0 ;;
  d1 <- getelem a 1 ;;
  setelem a 1 (if nonnull d1 then d1
               else if nonnull d0 then d0 else VStr (js "---")) ;;;
  d0 <- getelem a 0 ;;
  d1 <- getelem a 1 ;;
  if negb (is_string d0) || negb (is_string d1) then
    if negb nothrow then throw ErrDelims else ret None
  else ret (Some a).

Definition formatDelimiters (delims : value) (nothrow : bool) : M (option loc) :=
  a <- (match delims with
        | VArr a => ret a
        | _ => new_array [delims]
        end) ;;
  formatDelimiters_fill a nothrow.

(** A value that the program uses as a string. *)
Definition as_string (v : value) : M jsstring :=
  match v with
  | VStr s => ret s
  | _ => throw ErrType
  end.

(** [opts.delims[i]] *)
Definition delim (opts : loc) (i : nat) : M jsstring :=
  d <- getprop opts p_delims ;;
  match d with
  | VArr a => v <- getelem a i ;; as_string v
  | _ => throw ErrType
  end.

(** What lines 20 to 57 of [matter] hand to the rest of the function. *)
Inductive found : Type :=
| NoBlock (str : jsstring)
| Block (str : jsstring) (opts : loc) (header : jsstring) (loose : bool)
        (dataStart dataEnd bodyStart : nat).

(** [matter.test] (lines 91 to 129) *)
Definition matter_test (str : value) (opts : optarg) : M bool :=
  match str with
  | VStr s =>
      if bool_decide (s = []) then ret false
      else
        delims <- (match opts with
                   | Opts o => getprop o p_delims
                   | NoOpts | OptsPrim => ret VUndefined
                   end) ;;
        delims <- formatDelimiters delims true ;;
        match delims with
        | None => ret false
        | Some a =>
            header <- (v <- getelem a 0 ;; as_string v) ;;
            footer <- (v <- getelem a 1 ;; as_string v) ;;
            loose <- (match opts with
                      | Opts o => getprop o p_loose
                      | NoOpts | OptsPrim => ret VUndefined
                      end) ;;
            ret (test_locate (negb (truthy loose)) header footer s)
        end
  | _ => ret false
  end.

(** Lines 63 to 69 of [matter]: the function of [opts.parsers], its entry
    for [lang] when that is truthy, else the entry of [matter.parsers].
    Only the own properties of a plain object are read. *)
Definition select_parser (parsers : value) (lang : jsstring) : M value :=
  match parsers with
  | VFun _ => ret parsers
  | _ =>
      entry <- (match parsers with
                | VObj p => getprop p lang
                | _ => ret VUndefined
                end) ;;
      if nonnull parsers && truthy entry then ret entry
      else registered lang
  end.

(** The object literal of lines 208 to 213, with its array [a]. *)
Definition default_options (a : loc) : gmap jsstring value :=
  list_to_map [(p_loose, VBool false); (p_lang, VStr (js "yaml"));
               (p_delims, VArr a); (p_parsers, VNull)].

Section Program.

(** [String.prototype.toLowerCase], which the engine provides. *)
Variable toLowerCase : jsstring -> jsstring.

(** The code of the functions of the store. *)
Variable code : loc -> parser.

(** [formatOptions] (lines 206 to 224).  On a primitive value line 215 reads
    [undefined] and its assignment throws. *)
Definition formatOptions (opts : optarg) : M loc :=
  match opts with
  | NoOpts =>
      a <- new_array [VStr (js "---"); VStr (js "---")] ;;
      new_object (default_options a)
  | Opts o =>
      lang <- getprop o p_lang ;;
      setprop o p_lang (if nonnull lang then lang else VStr (js "yaml")) ;;;
      lang <- getprop o p_lang ;;
      match lang with
      | VStr s =>
          setprop o p_lang (VStr (toLowerCase (trim s))) ;;;
          delims <- getprop o p_delims ;;
          delims <- formatDelimiters delims false ;;
          setprop o p_delims (match delims with
                              | Some a => VArr a
                              | None => VNull
                              end) ;;;
          parsers <- getprop o p_parsers ;;
          setprop o p_parsers (if nonnull parsers then parsers else VNull) ;;;
          loose <- getprop o p_loose ;;
          setprop o p_loose (VBool (truthy loose)) ;;;
          ret o
      | _ => throw ErrLang
      end
  | OptsPrim => throw ErrType
  end.

(** Lines 20 to 57 of [matter]: the two arguments are normalised, then the
    block is searched. *)
Definition matter_detect (str : value) (opts : optarg) : M found :=
  str <- formatString str ;;
  opts <- formatOptions opts ;;
  if bool_decide (str = []) then ret (NoBlock str)
  else
    loose <- getprop opts p_loose ;;
    header <- delim opts 0 ;;
    footer <- delim opts 1 ;;
    match matter_locate (truthy loose) header footer str with
    | Absent => ret (NoBlock str)
    | Present dataStart dataEnd bodyStart =>
        ret (Block str opts header (truthy loose) dataStart dataEnd bodyStart)
    end.

(** Lines 58 to 78 of [matter]. *)
Definition matter_extract (str : jsstring) (opts : loc) (header : jsstring)
    (loose : bool) (dataStart dataEnd bodyStart : nat) : M result :=
  if dataStart <? dataEnd then
    let data := trim (substr str dataStart (dataEnd - dataStart)) in
    let tag :=
      toLowerCase (trim (substr str (length header) (dataStart - length header))) in
    lang <- (if bool_decide (tag = []) then l <- getprop opts p_lang ;; as_string l
             else ret tag) ;;
    parsers <- getprop opts p_parsers ;;
    parse <- select_parser parsers lang ;;
    match parse with
    | VFun f =>
        d <- call (code f) data loose ;;
        ret (Result str d (substr_from str bodyStart))
    | _ => throw (ErrNoParser lang)
    end
  else ret (Result str VNull (substr_from str bodyStart)).

(** [matter] (lines 18 to 79) *)
Definition matter (str : value) (opts : optarg) : M result :=
  f <- matter_detect str opts ;;
  match f with
  | NoBlock str => ret (Result str VNull str)
  | Block str opts header loose dataStart dataEnd bodyStart =>
      matter_extract str opts header loose dataStart dataEnd bodyStart
  end.

(** An argument of [matter.readFile] in the place of [opts] or of
    [callback]. *)
Inductive arg : Type :=
| ArgNone
| ArgObj (o : loc)
| ArgFun.

(** [matter.readFile] up to the call of [fs.readFile] (lines 156 to 166):
    it yields the options the pending read will use. *)
Definition matter_readFile (opts callback : arg) : M loc :=
  let (opts, callback) :=
    match opts with
    | ArgFun => (ArgNone, ArgFun)
    | _ => (opts, callback)
    end in
  match callback with
  | ArgFun =>
      formatOptions (match opts with ArgObj o => Opts o | _ => NoOpts end)
  | _ => throw ErrCallback
  end.

(** The function [matter.readFile] hands to [fs.readFile] (lines 167 to
    174), run when the read has ended with [err] and [content].
    [realpath] is what [fs.realpathSync(path)] does.  An error of this
    computation is an exception nobody catches. *)
Definition readFile_done (opts : loc) (realpath : error + jsstring)
    (err content : value) : M unit :=
  (if truthy err then callback err None else ret tt) ;;;
  result <- matter content (Opts opts) ;;
  path <- (match realpath with
           | inl e => throw e
           | inr p => ret p
           end) ;;
  callback err (Some (result, path)).

End Program.

(** How [fs.readFile] ends: it passes [(null, content)], or an error object
    alone. *)
Inductive fs_read : Type :=
| ReadOk (content : jsstring)
| ReadFail (err : loc).

Definition fs_err (r : fs_read) : value :=
  match r with ReadOk _ => VNull | ReadFail e => VObj e end.

Definition fs_content (r : fs_read) : value :=
  match r with ReadOk c => VStr c | ReadFail _ => VUndefined end.

(** A lower-casing of the letters A to Z, to run the program on examples. *)
Definition ascii_lower (s : jsstring) : jsstring :=
  (fun c => if (65 <=? c) && (c <=? 90) then c + 32 else c)%N <$> s.

Definition empty_state : state := State ∅ ∅ ∅ [] [].

(** A function, and code in which every function returns the text it gets
    and writes nothing: a parser to run the program on examples. *)
Definition echo : loc := 1%positive.

Definition echoes : loc -> parser :=
  fun _ text _ st => (Returns (VStr text), st).

(** ** The rest of the program *)

(** [matter.readFileSync] (lines 139 to 146).  [read] is what
    [fs.readFileSync(path, {encoding: 'utf8'})] does, the content or an
    exception, and [realpath] what [fs.realpathSync(path)] does. *)
Definition matter_readFileSync (toLowerCase : jsstring -> jsstring)
    (code : loc -> parser) (read realpath : error + jsstring) (opts : optarg)
  : M (result * jsstring) :=
  opts <- formatOptions toLowerCase opts ;;
  content <- (match read with
              | inl e => throw e
              | inr c => ret c
              end) ;;
  result <- matter toLowerCase code (VStr content) (Opts opts) ;;
  path <- (match realpath with
           | inl e => throw e
           | inr p => ret p
           end) ;;
  ret (result, path).

(** [fm_yaml || (fm_yaml = require('js-yaml'))] and the same for [fm_toml]
    (lines 249 and 263): the library, which is installed with the program, is
    in the module variable from then on. *)
Definition load_yaml (st : state) : state :=
  MkState (obj_store st) (arr_store st) (registry st) true (fm_toml st)
          (calls st) (delivered st).

Definition load_toml (st : state) : state :=
  MkState (obj_store st) (arr_store st) (registry st) (fm_yaml st) true
          (calls st) (delivered st).

(** [matter.parsers.yaml] and [matter.parsers.toml] (lines 247 to 269), over
    the code of the two library functions: the library is loaded, then what
    its function throws is caught and [null] is returned.  [safeLoad] gets the
    text and the options, [parse] the text alone. *)
Definition parsers_yaml (safeLoad : parser) : parser :=
  fun str opts st =>
    match safeLoad str opts (load_yaml st) with
    | (Returns v, st') => (Returns v, st')
    | (Throws _, st') => (Returns VNull, st')
    end.

Definition parsers_toml (parse : jsstring -> state -> presult * state) : parser :=
  fun str _ st =>
    match parse str (load_toml st) with
    | (Returns v, st') => (Returns v, st')
    | (Throws _, st') => (Returns VNull, st')
    end.

(** ** Notions used to state the properties *)

(** The character of [str] at index [i] is not a newline and is the last
    character of [delim]: the test of lines 35-36, 45, 108-109 and 118. *)
Definition repeats_last (delim str : jsstring) (i : nat) : Prop :=
  str !! i ≠ Some LF ∧ str !! i = last delim.

(** The header and footer [formatDelimiters] leaves in an array that holds
    [l]. *)
Definition filled (l : list value) : value * value :=
  let d0 := default VUndefined (l !! 0) in
  let d1 := default VUndefined (l !! 1) in
  let h := if nonnull d0 then d0 else if nonnull d1 then d1 else VStr (js "---") in
  (h, if nonnull d1 then d1 else h).

(** The array [formatDelimiters] works on, and what it holds at first. *)
Definition delims_array (st : state) (delims : value) : loc * list value :=
  match delims with
  | VArr a => (a, default [] (arrs st !! a))
  | _ => (fresh (dom (arrs st)), [delims])
  end.

(** What [formatString] makes of a string. *)
Definition strip_bom (s : jsstring) : jsstring :=
  match s with
  | c :: s' => if (c =? BOM)%N then s' else s
  | [] => []
  end.

(** What lines 23 to 57 of [matter] find in the text [s], for options [o]
    that hold [loose], [header] and [footer]. *)
Definition search (s : jsstring) (o : loc) (loose : bool)
    (header footer : jsstring) : found :=
  if bool_decide (s = []) then NoBlock s
  else match matter_locate loose header footer s with
       | Absent => NoBlock s
       | Present dataStart dataEnd bodyStart =>
           Block s o header loose dataStart dataEnd bodyStart
       end.

(** How [formatDelimiters] ends on an array [a] that held [l]. *)
Definition delims_outcome (l : list value) (nothrow : bool) (a : loc)
  : error + option loc :=
  if is_string (filled l).1 && is_string (filled l).2 then inr (Some a)
  else if nothrow then inr None else inl ErrDelims.

(** [opts.lang] after the defaulting of line 215. *)
Definition lang_or_default (st : state) (o : loc) : value :=
  let lang := obj_get st o p_lang in
  if nonnull lang then lang else VStr (js "yaml").

(** The store [formatOptions] leaves when it has written the language
    [lang], the array [a] of the delimiters with content [l], and the
    properties [delims], [parsers] and [loose] of the object [o]. *)
Definition normalized (st : state) (o : loc) (lang0 lang : jsstring) : state :=
  let d := delims_array st (obj_get st o p_delims) in
  let parsers := obj_get st o p_parsers in
  obj_set
    (obj_set
       (obj_set
          (arr_write
             (obj_set (obj_set st o p_lang (VStr lang0)) o p_lang (VStr lang))
             d.1 ((filled d.2).1 :: (filled d.2).2 :: drop 2 d.2))
          o p_delims (VArr d.1))
       o p_parsers (if nonnull parsers then parsers else VNull))
    o p_loose (VBool (truthy (obj_get st o p_loose))).

(** [opts.delims] and [opts.loose] as the functions read them at first. *)
Definition opt_delims (st : state) (opts : optarg) : value :=
  match opts with
  | Opts o => obj_get st o p_delims
  | NoOpts | OptsPrim => VUndefined
  end.

Definition opt_loose (st : state) (opts : optarg) : value :=
  match opts with
  | Opts o => obj_get st o p_loose
  | NoOpts | OptsPrim => VUndefined
  end.

(** [opts.lang] is absent, [null] or a string. *)
Definition lang_valid (st : state) (opts : optarg) : Prop :=
  match opts with
  | Opts o => is_string (lang_or_default st o) = true
  | NoOpts | OptsPrim => True
  end.

(** The header and the footer the options give, as [formatDelimiters] fills
    them in. *)
Definition opt_pair (st : state) (opts : optarg) : value * value :=
  filled (delims_array st (opt_delims st opts)).2.

(** Both delimiters are strings. *)
Definition delims_valid (st : state) (opts : optarg) : Prop :=
  is_string (opt_pair st opts).1 = true ∧ is_string (opt_pair st opts).2 = true.

(** The value lines 63 to 69 leave in [parse]: what [select_parser]
    yields. *)
Definition chosen (st : state) (parsers : value) (lang : jsstring) : value :=
  match parsers with
  | VFun _ => parsers
  | _ =>
      let entry := match parsers with
                   | VObj p => obj_get st p lang
                   | _ => VUndefined
                   end in
      if nonnull parsers && truthy entry then entry
      else default VUndefined (registry st !! lang)
  end.

(** The metadata text and the language lines 59 to 61 compute. *)
Definition metadata (str : jsstring) (dataStart dataEnd : nat) : jsstring :=
  trim (substr str dataStart (dataEnd - dataStart)).

Definition language (lower : jsstring -> jsstring) (st : state) (o : loc)
    (str header : jsstring) (dataStart : nat) : value :=
  let tag :=
    lower (trim (substr str (length header) (dataStart - length header))) in
  if bool_decide (tag = []) then obj_get st o p_lang else VStr tag.

(** The text passes the header, a newline follows it and a newline with the
    footer follows that: lines 32 to 39 (105 to 112) do not return. *)
Definition reaches_footer (strict : bool) (header footer str : jsstring)
    (dataStart dataEnd : nat) : Prop :=
  substr str 0 (length header) = header
  ∧ (strict = true -> length header < length str ->
     ¬ repeats_last header str (length header))
  ∧ indexOf str [LF] (length header) = Some dataStart
  ∧ indexOf str (LF :: footer) dataStart = Some dataEnd.

(** The default delimiter. *)
Definition dashes : jsstring := js "---".

(** From [st] to [st'] the registry, the module variables, the record of
    callbacks and what the caller's objects and arrays hold are kept, but for
    the object [o] and the array [a] (when given). *)
Definition kept (st st' : state) (o : option loc) (a : option loc) : Prop :=
  registry st' = registry st ∧ delivered st' = delivered st
  ∧ fm_yaml st' = fm_yaml st ∧ fm_toml st' = fm_toml st
  ∧ (∀ l, o ≠ Some l -> is_Some (objs st !! l) -> objs st' !! l = objs st !! l)
  ∧ (∀ l, a ≠ Some l -> is_Some (arrs st !! l) -> arrs st' !! l = arrs st !! l).

(** The array of the caller that [formatDelimiters] fills, if any. *)
Definition caller_array (delims : value) : option loc :=
  match delims with
  | VArr a => Some a
  | _ => None
  end.

(** The options object of the caller, if any. *)
Definition caller_object (opts : optarg) : option loc :=
  match opts with
  | Opts o => Some o
  | NoOpts | OptsPrim => None
  end.

(** The engine accepts the assignments of [formatDelimiters] to the array
    [a], lines 193 and 195. *)
Definition arr_open (st : state) (a : loc) : Prop :=
  arr_locked st a 0 = false ∧ arr_locked st a 1 = false.

(** The same for the value given as [delims]; an array the program makes
    itself accepts them. *)
Definition delims_writable (st : state) (delims : value) : Prop :=
  match delims with
  | VArr a => arr_open st a
  | _ => True
  end.

(** The engine accepts the assignments of [formatOptions] to the options,
    lines 215 to 222, and to the array given as their [delims]. *)
Definition opts_writable (st : state) (opts : optarg) : Prop :=
  match opts with
  | NoOpts => True
  | Opts o =>
      obj_locked st o p_lang = false ∧ obj_locked st o p_delims = false
      ∧ obj_locked st o p_parsers = false ∧ obj_locked st o p_loose = false
      ∧ delims_writable st (obj_get st o p_delims)
  | OptsPrim => False
  end.

(** How lines 193 to 203 end on the array [a] that holds [l]: the two
    assignments, each of which the engine may refuse, then the test of the
    two entries. *)
Definition delims_run (st : state) (a : loc) (l : list value) (nothrow : bool)
  : (error + option loc) * state :=
  if arr_locked st a 0 then (inl ErrType, st)
  else if arr_locked st a 1
  then (inl ErrType, arr_write st a (list_assign l 0 (filled l).1))
  else (delims_outcome l nothrow a,
        arr_write st a ((filled l).1 :: (filled l).2 :: drop 2 l)).

(** Lines 71 and 76 to 78 of [matter]: what the parser returns becomes
    [data], what it throws is not caught. *)
Definition with_data (str body : jsstring) (out : (error + value) * state)
  : (error + result) * state :=
  match out with
  | (inr v, st) => (inr (Result str v body), st)
  | (inl e, st) => (inl e, st)
  end.

(** The store is the same in [st] and [st']; the two records may differ. *)
Definition same_store (st st' : state) : Prop :=
  obj_store st' = obj_store st ∧ arr_store st' = arr_store st
  ∧ registry st' = registry st ∧ fm_yaml st' = fm_yaml st
  ∧ fm_toml st' = fm_toml st.

(** The functions write nothing. *)
Definition pure_code (code : loc -> parser) : Prop :=
  ∀ f text loose st, same_store st (code f text loose st).2.

(** The object [o] of the store has the property [k], with value [v]. *)
Definition has_prop (st : state) (o : loc) (k : jsstring) (v : value) : Prop :=
  ∃ props, objs st !! o = Some props ∧ props !! k = Some v.

(** The header and the footer [formatDelimiters] makes of [delims]. *)
Definition opt_pair_of (st : state) (delims : value) : value * value :=
  filled (delims_array st delims).2.

(** The options object [o] is as [formatOptions] leaves it: it has the
    string [lang] as language, a boolean as [loose], [parsers] that are not
    [undefined], and as [delims] an array that starts with two strings. *)
Definition normal_options (st : state) (o : loc) (lang : jsstring) : Prop :=
  has_prop st o p_lang (VStr lang)
  ∧ (∃ b, has_prop st o p_loose (VBool b))
  ∧ (∃ p, has_prop st o p_parsers p ∧ p ≠ VUndefined)
  ∧ (∃ a h f t, has_prop st o p_delims (VArr a)
                ∧ arrs st !! a = Some (VStr h :: VStr f :: t)).

(** [st'] is reached from [st] by assignments to the properties [lang],
    [delims], [parsers] and [loose] of the object [o] and to the array
    [a]. *)
Inductive written (o a : loc) (st : state) : state -> Prop :=
| written_none : written o a st st
| written_prop st' k v :
    written o a st st' -> k ∈ [p_lang; p_delims; p_parsers; p_loose] ->
    written o a st (obj_set st' o k v)
| written_array st' l :
    written o a st st' -> written o a st (arr_write st' a l).

(** * Properties *)

(** ** Two runs of the detection *)

Example ex_locate_1 :
  matter_locate false (js "---") (js "---")
    (js "---" ++ [LF] ++ js "foo: bar" ++ [LF] ++ js "---" ++ [LF; LF] ++ js "baz")
  = Present 3 12 17.
Proof. vm_compute. reflexivity. Qed.

Example ex_locate_2 :
  test_locate true (js "---") (js "---") (js "---" ++ [LF] ++ js " ---") = false.
Proof. vm_compute. reflexivity. Qed.

(** ** Cases of test/test.js *)

(** 'should return false if options.loose is false and front matter is not
    found', #1 to #7, and 'should return true ...', #1. *)
Example ex_test_strict :
  (λ s, (matter_test (VStr s) NoOpts empty_state).1)
    <$> [ []; js "foobar"; dashes ++ [LF; 32%N; LF] ++ js " ---"; dashes ++ [LF];
          LF :: dashes; js "----" ++ [LF; 32%N; LF] ++ dashes;
          dashes ++ [LF; 32%N; LF] ++ js "----"; dashes ++ [LF] ++ dashes ]
  = [inr false; inr false; inr false; inr false; inr false; inr false;
     inr false; inr true].
Proof. vm_compute. reflexivity. Qed.

(** 'should return true if options.loose is true and front matter is
    found', #1 and #2. *)
Example ex_test_loose :
  let st := State {[ 1%positive := {[ p_loose := VBool true ]} ]} ∅ ∅ [] [] in
  (λ s, (matter_test (VStr s) (Opts 1%positive) st).1)
    <$> [ js "----" ++ [LF; 32%N; LF] ++ dashes;
          dashes ++ [LF; 32%N; LF] ++ js "----" ]
  = [inr true; inr true].
Proof. vm_compute. reflexivity. Qed.

(** 'should return true for custom delimiters if front matter is found',
    #2 to #5: the text is header, newline, footer, newline, 'foo'. *)
Example ex_test_delims :
  (λ d : list value * jsstring,
     (matter_test (VStr (d.2 ++ [LF] ++ d.2 ++ [LF] ++ js "foo")) (Opts 1%positive)
        (State {[ 1%positive := {[ p_delims := VArr 1%positive ]} ]}
               {[ 1%positive := d.1 ]} ∅ [] [])).1)
    <$> [ ([VStr (js "~~~")], js "~~~");
          ([VNull; VStr (js "~~~")], js "~~~");
          ([VStr (dashes ++ [LF]); VStr (dashes ++ [LF])], dashes ++ [LF]);
          ([VStr [LF; LF; LF]; VStr [LF; LF; LF]], [LF; LF; LF]) ]
  = [inr true; inr true; inr true; inr true].
Proof. vm_compute. reflexivity. Qed.

(** 'should extract front matter between ambiguous delimiters'. *)
Example ex_matter_loose :
  let st := State {[ 1%positive := {[ p_loose := VBool true;
                                      p_parsers := VFun echo ]} ]} ∅ ∅ [] [] in
  let s := js "----" ++ [LF] ++ js "10" ++ [LF] ++ js "----" in
  (matter ascii_lower echoes (VStr s) (Opts 1%positive) st).1
  = inr (Result s (VStr (js "10")) (js "-")).
Proof. vm_compute. reflexivity. Qed.

(** 'should throw an error if the parser is not found', and a language in
    capitals behind the header with lines that end in CR LF. *)
Example ex_matter_language :
  let st := State ∅ ∅ {[ js "yaml" := VFun echo ]} [] [] in
  (matter ascii_lower echoes
     (VStr (js "---nothing" ++ [LF] ++ js "foo: bar" ++ [LF] ++ dashes)) NoOpts st).1
  = inl (ErrNoParser (js "nothing"))
  ∧ (matter ascii_lower echoes
       (VStr (js "--- YAML " ++ [13%N; LF] ++ js "foo" ++ [13%N; LF] ++ dashes
              ++ [13%N; LF] ++ js "baz")) NoOpts st).1
    = inr (Result (js "--- YAML " ++ [13%N; LF] ++ js "foo" ++ [13%N; LF] ++ dashes
                   ++ [13%N; LF] ++ js "baz")
                  (VStr (js "foo")) (js "baz")).
Proof. split; vm_compute; reflexivity. Qed.

(** ** The two detection loops agree *)

Lemma test_scan_matter_scan rest b :
  test_scan rest = true <-> is_Some (matter_scan rest b).
Proof.
  revert b. induction rest as [|c rest IH]; intros b; simpl.
  - split; eauto.
  - destruct (c =? LF)%N; [split; eauto|].
    destruct (isWhiteSpace c); simpl; [apply IH|].
    split; [discriminate|]. intros [x Hx]. discriminate.
Qed.

Lemma test_locate_matter_locate strict header footer str :
  test_locate strict header footer str = true
  <-> matter_locate (negb strict) header footer str ≠ Absent.
Proof.
  unfold test_locate, matter_locate. rewrite negb_involutive.
  destruct (negb _ || _); [split; [discriminate | congruence]|].
  destruct (indexOf str [LF] (length header)) as [ds|];
    [|split; [discriminate | congruence]].
  destruct (indexOf str (LF :: footer) ds) as [de|];
    [|split; [discriminate | congruence]].
  cbv zeta.
  destruct (strict && _); [|split; [discriminate | reflexivity]].
  destruct (negb _ && _); [split; [discriminate | congruence]|].
  rewrite (test_scan_matter_scan _ (de + 1 + length footer)).
  destruct (matter_scan _ _); split; try discriminate; try congruence; eauto.
  intros [x Hx]; discriminate.
Qed.

(** The loop stops at the first newline or at the end of the text, and
    fails exactly when it meets a character that is not white space. *)
Lemma matter_scan_line line rest b :
  LF ∉ line -> (rest = [] ∨ head rest = Some LF) ->
  matter_scan (line ++ rest) b
  = if forallb isWhiteSpace line then Some (b + length line) else None.
Proof.
  intros Hnl Hrest. revert b.
  induction line as [|c line IH]; intros b; simpl.
  - rewrite Nat.add_0_r. destruct Hrest as [->|H]; [reflexivity|].
    destruct rest as [|c rest]; [reflexivity|]. simpl in H.
    injection H as ->. reflexivity.
  - apply not_elem_of_cons in Hnl as [Hc Hnl].
    destruct (N.eqb_spec c LF) as [->|_]; [congruence|].
    destruct (isWhiteSpace c); simpl; [|reflexivity].
    rewrite IH by assumption. replace (S b + length line) with (b + S (length line)) by lia.
    reflexivity.
Qed.

(** ** Running a computation *)

Lemma ret_run {A} (a : A) st : ret a st = (inr a, st).
Proof. reflexivity. Qed.

Lemma throw_run {A} e st : @throw A e st = (inl e, st).
Proof. reflexivity. Qed.

Ltac run := repeat (progress (cbv beta iota; rewrite ?ret_run, ?throw_run)).

(** ** The store: reading after writing *)

Lemma list_assign_01 l h f :
  list_assign (list_assign l 0 h) 1 f = h :: f :: drop 2 l.
Proof. destruct l as [|x [|y t]]; reflexivity. Qed.

Lemma list_assign_0_lookup l h :
  list_assign l 0 h !! 0 = Some h ∧ list_assign l 0 h !! 1 = l !! 1.
Proof. destruct l as [|x [|y t]]; split; reflexivity. Qed.

Lemma list_assign_0_again l h : list_assign (list_assign l 0 h) 0 h = list_assign l 0 h.
Proof. by destruct l. Qed.

Lemma arrs_arr_write st a l : arrs (arr_write st a l) = <[a := l]> (arrs st).
Proof. unfold arrs, arr_write; cbn [arr_store]. by rewrite fmap_insert. Qed.

Lemma objs_obj_set st o k v :
  objs (obj_set st o k v) = <[o := <[k := v]> (default ∅ (objs st !! o))]> (objs st).
Proof.
  unfold objs, obj_set; cbn [obj_store]. rewrite fmap_insert. cbn [props].
  rewrite lookup_fmap. by destruct (obj_store st !! o).
Qed.

Lemma objs_obj_write st o p : objs (obj_write st o p) = <[o := p]> (objs st).
Proof. unfold objs, obj_write; cbn [obj_store]. by rewrite fmap_insert. Qed.

Lemma arrs_arr_write_eq st a l : arrs (arr_write st a l) !! a = Some l.
Proof. by rewrite arrs_arr_write, lookup_insert_eq. Qed.

Lemma arrs_arr_write_ne st a l b : a ≠ b -> arrs (arr_write st a l) !! b = arrs st !! b.
Proof. intros. by rewrite arrs_arr_write, lookup_insert_ne. Qed.

Lemma arr_get_arr_write st a l i :
  arr_get (arr_write st a l) a i = default VUndefined (l !! i).
Proof. unfold arr_get. by rewrite arrs_arr_write_eq. Qed.

Lemma arr_get_arr_write_ne st a b l i :
  a ≠ b -> arr_get (arr_write st a l) b i = arr_get st b i.
Proof. intros. unfold arr_get. by rewrite arrs_arr_write_ne. Qed.

Lemma arr_write_arr_write st a l l' :
  arr_write (arr_write st a l) a l' = arr_write st a l'.
Proof.
  unfold arr_write; cbn [obj_store arr_store registry fm_yaml fm_toml calls delivered].
  rewrite lookup_insert_eq. cbn [from_option id fixed]. by rewrite insert_insert_eq.
Qed.

Lemma arr_set_arr_write st a l i v :
  arr_set (arr_write st a l) a i v = arr_write st a (list_assign l i v).
Proof. unfold arr_set. by rewrite arr_write_arr_write, arrs_arr_write_eq. Qed.

Lemma obj_get_arr_write st a l o k :
  obj_get (arr_write st a l) o k = obj_get st o k.
Proof. reflexivity. Qed.

Lemma arr_get_obj_set st o k v a i :
  arr_get (obj_set st o k v) a i = arr_get st a i.
Proof. reflexivity. Qed.

Lemma obj_get_obj_set st o k v o' k' :
  obj_get (obj_set st o k v) o' k'
  = if decide (o = o' ∧ k = k') then v else obj_get st o' k'.
Proof.
  unfold obj_get. rewrite objs_obj_set.
  destruct (decide (o = o')) as [<-|Ho].
  - rewrite lookup_insert_eq. cbn [mbind option_bind].
    destruct (decide (k = k')) as [<-|Hk].
    + rewrite lookup_insert_eq. destruct (decide _) as [_|n]; [done|].
      destruct n; done.
    + rewrite lookup_insert_ne by done.
      destruct (decide _) as [[_ e]|_]; [done|].
      destruct (objs st !! o); [done|]. cbn [from_option id mbind option_bind].
      by rewrite lookup_empty.
  - rewrite lookup_insert_ne by done.
    destruct (decide _) as [[e _]|_]; done.
Qed.

Lemma obj_get_obj_set_eq st o k v : obj_get (obj_set st o k v) o k = v.
Proof.
  rewrite obj_get_obj_set. destruct (decide _) as [_|n]; [done|].
  destruct n; done.
Qed.

Lemma obj_get_obj_set_ne st o k v k' :
  k ≠ k' -> obj_get (obj_set st o k v) o k' = obj_get st o k'.
Proof.
  intros Hk. rewrite obj_get_obj_set. destruct (decide _) as [[_ e]|_]; done.
Qed.

Lemma obj_get_obj_set_other st o k v o' k' :
  o ≠ o' -> obj_get (obj_set st o k v) o' k' = obj_get st o' k'.
Proof.
  intros Ho. rewrite obj_get_obj_set. destruct (decide _) as [[e _]|_]; done.
Qed.

(** What the engine refuses does not change when the program writes. *)
Lemma arr_locked_arr_write st a l a' i :
  arr_locked (arr_write st a l) a' i = arr_locked st a' i.
Proof.
  unfold arr_locked, arr_write; cbn [arr_store].
  destruct (decide (a = a')) as [<-|Hne].
  - rewrite lookup_insert_eq. by destruct (arr_store st !! a).
  - by rewrite lookup_insert_ne.
Qed.

Lemma arr_locked_obj_set st o k v a i :
  arr_locked (obj_set st o k v) a i = arr_locked st a i.
Proof. reflexivity. Qed.

Lemma obj_locked_arr_write st a l o k :
  obj_locked (arr_write st a l) o k = obj_locked st o k.
Proof. reflexivity. Qed.

Lemma obj_locked_obj_set st o k v o' k' :
  obj_locked (obj_set st o k v) o' k' = obj_locked st o' k'.
Proof.
  unfold obj_locked, obj_set; cbn [obj_store].
  destruct (decide (o = o')) as [<-|Hne].
  - rewrite lookup_insert_eq. by destruct (obj_store st !! o).
  - by rewrite lookup_insert_ne.
Qed.

Lemma fresh_unused {V} (m : gmap loc V) : m !! fresh (dom m) = None.
Proof. apply not_elem_of_dom. apply is_fresh. Qed.

Lemma arrs_None st a : arrs st !! a = None -> arr_store st !! a = None.
Proof. unfold arrs. rewrite lookup_fmap. by destruct (arr_store st !! a). Qed.

Lemma arr_locked_None st a i : arrs st !! a = None -> arr_locked st a i = false.
Proof. intros H. unfold arr_locked. by rewrite (arrs_None _ _ H). Qed.

Lemma filled_nonnull l : nonnull (filled l).1 = true.
Proof.
  unfold filled; cbn.
  destruct (nonnull (default VUndefined (l !! 0))) eqn:E0; [done|].
  by destruct (nonnull (default VUndefined (l !! 1))) eqn:E1.
Qed.

(** ** [formatDelimiters] as a function of the store *)

Lemma setelem_run a i v st :
  setelem a i v st = if arr_locked st a i then (inl ErrType, st)
                     else (inr tt, arr_set st a i v).
Proof. reflexivity. Qed.

Lemma formatDelimiters_fill_spec a nothrow st :
  formatDelimiters_fill a nothrow st
  = delims_run st a (default [] (arrs st !! a)) nothrow.
Proof.
  unfold delims_run. set (l := default [] (arrs st !! a)).
  unfold formatDelimiters_fill, bind, ret, getelem. cbv beta iota.
  rewrite setelem_run.
  destruct (arr_locked st a 0) eqn:L0; [reflexivity|].
  change (if nonnull (arr_get st a 0) then arr_get st a 0
          else if nonnull (arr_get st a 1) then arr_get st a 1
               else VStr (js "---")) with (filled l).1.
  set (h := (filled l).1).
  change (arr_set st a 0 h) with (arr_write st a (list_assign l 0 h)).
  rewrite setelem_run, arr_locked_arr_write.
  destruct (arr_locked st a 1) eqn:L1; [reflexivity|].
  cbv beta iota. rewrite !arr_get_arr_write.
  destruct (list_assign_0_lookup l h) as [-> ->]. cbn [from_option id].
  assert (Hnn : nonnull h = true) by apply filled_nonnull. rewrite Hnn.
  change (if nonnull (default VUndefined (l !! 1))
          then default VUndefined (l !! 1) else h) with (filled l).2.
  rewrite arr_set_arr_write, !arr_get_arr_write.
  rewrite list_assign_01. cbn [lookup list_lookup from_option id].
  unfold delims_outcome. fold h.
  destruct (is_string h), (is_string (filled l).2), nothrow; reflexivity.
Qed.

Lemma delims_run_open st a l nothrow :
  arr_open st a ->
  delims_run st a l nothrow
  = (delims_outcome l nothrow a,
     arr_write st a ((filled l).1 :: (filled l).2 :: drop 2 l)).
Proof. intros [H0 H1]. unfold delims_run. by rewrite H0, H1. Qed.

Lemma delims_run_new st a l l' nothrow :
  arrs st !! a = None ->
  delims_run (arr_write st a l') a l nothrow = delims_run st a l nothrow.
Proof.
  intros Ha. unfold delims_run. rewrite !arr_locked_arr_write.
  rewrite !(arr_locked_None st a _ Ha). by rewrite arr_write_arr_write.
Qed.

Lemma formatDelimiters_spec delims nothrow st :
  formatDelimiters delims nothrow st
  = let (a, l) := delims_array st delims in delims_run st a l nothrow.
Proof.
  assert (Hnew : forall d, (a <- new_array [d] ;; formatDelimiters_fill a nothrow) st
            = let a := fresh (dom (arrs st)) in delims_run st a [d] nothrow).
  { intros d. unfold bind, new_array. cbv beta iota zeta.
    rewrite formatDelimiters_fill_spec.
    rewrite arrs_arr_write_eq. cbn [from_option id].
    apply delims_run_new, fresh_unused. }
  destruct delims as [| | | | | |a|].
  7: { unfold formatDelimiters, bind, ret. cbv beta iota.
       apply formatDelimiters_fill_spec. }
  all: exact (Hnew _).
Qed.

Lemma delims_array_open st delims :
  delims_writable st delims -> arr_open st (delims_array st delims).1.
Proof.
  destruct delims; cbn [delims_writable delims_array fst]; try done.
  all: intros _; split; apply arr_locked_None, fresh_unused.
Qed.

(** With an array that accepts the two assignments, [formatDelimiters]
    fills it and tests its two entries. *)
Lemma formatDelimiters_open delims nothrow st :
  delims_writable st delims ->
  formatDelimiters delims nothrow st
  = let (a, l) := delims_array st delims in
    (delims_outcome l nothrow a,
     arr_write st a ((filled l).1 :: (filled l).2 :: drop 2 l)).
Proof.
  intros Hw. rewrite formatDelimiters_spec.
  pose proof (delims_array_open st delims Hw) as Ho.
  destruct (delims_array st delims) as [a l]. by apply delims_run_open.
Qed.


(** ** [formatOptions] as a function of the store *)

Lemma p_keys :
  p_lang ≠ p_delims ∧ p_lang ≠ p_parsers ∧ p_lang ≠ p_loose
  ∧ p_delims ≠ p_parsers ∧ p_delims ≠ p_loose ∧ p_parsers ≠ p_loose.
Proof. repeat split; discriminate. Qed.

Lemma setprop_run o k v st :
  setprop o k v st = if obj_locked st o k then (inl ErrType, st)
                     else (inr tt, obj_set st o k v).
Proof. reflexivity. Qed.

(** [formatOptions] on an object, step by step: each assignment may be
    refused. *)
Lemma formatOptions_Opts lower o st :
  formatOptions lower (Opts o) st
  = if obj_locked st o p_lang then (inl ErrType, st)
    else
      match lang_or_default st o with
      | VStr s =>
          let d := delims_array st (obj_get st o p_delims) in
          let parsers := obj_get st o p_parsers in
          match delims_run (obj_set (obj_set st o p_lang (VStr s)) o p_lang
                                    (VStr (lower (trim s))))
                           d.1 d.2 false with
          | (inl e, st2) => (inl e, st2)
          | (inr _, st2) =>
              if obj_locked st o p_delims then (inl ErrType, st2)
              else if obj_locked st o p_parsers
              then (inl ErrType, obj_set st2 o p_delims (VArr d.1))
              else if obj_locked st o p_loose
              then (inl ErrType,
                    obj_set (obj_set st2 o p_delims (VArr d.1)) o p_parsers
                            (if nonnull parsers then parsers else VNull))
              else (inr o,
                    obj_set
                      (obj_set (obj_set st2 o p_delims (VArr d.1)) o p_parsers
                               (if nonnull parsers then parsers else VNull))
                      o p_loose (VBool (truthy (obj_get st o p_loose))))
          end
      | v => (inl ErrLang, obj_set st o p_lang v)
      end.
Proof.
  destruct p_keys as (K1 & K2 & K3 & K4 & K5 & K6).
  unfold formatOptions, bind, ret, getprop, throw. cbv beta iota.
  rewrite setprop_run.
  destruct (obj_locked st o p_lang) eqn:L1; [reflexivity|].
  cbv beta iota. rewrite obj_get_obj_set_eq.
  change (if nonnull (obj_get st o p_lang) then obj_get st o p_lang
          else VStr (js "yaml")) with (lang_or_default st o).
  destruct (lang_or_default st o) as [| | | |s| | |]; try reflexivity.
  rewrite setprop_run, obj_locked_obj_set, L1. cbv beta iota.
  rewrite formatDelimiters_spec.
  rewrite !obj_get_obj_set_ne by done.
  change (delims_array (obj_set (obj_set st o p_lang (VStr s)) o p_lang
                                (VStr (lower (trim s))))
                       (obj_get st o p_delims))
    with (delims_array st (obj_get st o p_delims)).
  cbv zeta. destruct (delims_array st (obj_get st o p_delims)) as [a l].
  cbn [fst snd].
  set (st1 := obj_set (obj_set st o p_lang (VStr s)) o p_lang (VStr (lower (trim s)))).
  assert (Hrun : ∃ r st2, delims_run st1 a l false = (r, st2)
                          ∧ (∀ x, r = inr x -> x = Some a)
                          ∧ (∀ k, obj_locked st2 o k = obj_locked st o k)
                          ∧ (∀ k, k ≠ p_lang -> obj_get st2 o k = obj_get st o k)).
  { unfold delims_run, delims_outcome.
    destruct (arr_locked st1 a 0); [|destruct (arr_locked st1 a 1)];
      (eexists _, _; split; [reflexivity|]; split;
       [intros x; try discriminate;
        destruct (is_string _ && is_string _); cbn [negb]; congruence|];
       split; intros k;
       [try rewrite obj_locked_arr_write; unfold st1;
        by rewrite !obj_locked_obj_set
       |intros Hk; try rewrite obj_get_arr_write; unfold st1;
        by rewrite !obj_get_obj_set_ne]). }
  destruct Hrun as (r & st2 & Hr & Hsome & Hlock & Hget). rewrite Hr.
  destruct r as [e|r]; [reflexivity|]. rewrite (Hsome r eq_refl).
  rewrite setprop_run, Hlock.
  destruct (obj_locked st o p_delims) eqn:L2; [reflexivity|]. cbv beta iota.
  rewrite setprop_run, obj_locked_obj_set, Hlock.
  rewrite obj_get_obj_set_ne, Hget by done.
  destruct (obj_locked st o p_parsers) eqn:L3; [reflexivity|]. cbv beta iota.
  rewrite setprop_run, !obj_locked_obj_set, Hlock.
  rewrite !obj_get_obj_set_ne, Hget by done.
  destruct (obj_locked st o p_loose) eqn:L4; reflexivity.
Qed.

(** With options that accept the assignments. *)
Lemma formatOptions_open lower o st :
  opts_writable st (Opts o) ->
  formatOptions lower (Opts o) st
  = match lang_or_default st o with
    | VStr s =>
        let d := delims_array st (obj_get st o p_delims) in
        match delims_outcome d.2 false d.1 with
        | inl e =>
            (inl e,
             arr_write
               (obj_set (obj_set st o p_lang (VStr s)) o p_lang
                        (VStr (lower (trim s))))
               d.1 ((filled d.2).1 :: (filled d.2).2 :: drop 2 d.2))
        | inr _ => (inr o, normalized st o s (lower (trim s)))
        end
    | v => (inl ErrLang, obj_set st o p_lang v)
    end.
Proof.
  intros (L1 & L2 & L3 & L4 & Hd). rewrite formatOptions_Opts, L1, L2, L3, L4.
  destruct (lang_or_default st o) as [| | | |s| | |]; try reflexivity.
  cbv zeta. apply delims_array_open in Hd.
  rewrite delims_run_open by exact Hd.
  by destruct (delims_outcome _ _ _).
Qed.

(** What the normalised options hold. *)
Lemma normalized_reads st o lang0 lang :
  let st' := normalized st o lang0 lang in
  let d := delims_array st (obj_get st o p_delims) in
  obj_get st' o p_loose = VBool (truthy (obj_get st o p_loose))
  ∧ obj_get st' o p_delims = VArr d.1
  ∧ arr_get st' d.1 0 = (filled d.2).1
  ∧ arr_get st' d.1 1 = (filled d.2).2
  ∧ obj_get st' o p_lang = VStr lang
  ∧ obj_get st' o p_parsers
    = (if nonnull (obj_get st o p_parsers) then obj_get st o p_parsers else VNull)
  ∧ registry st' = registry st ∧ calls st' = calls st
  ∧ delivered st' = delivered st.
Proof.
  destruct p_keys as (K1 & K2 & K3 & K4 & K5 & K6).
  cbv zeta. unfold normalized.
  destruct (delims_array st (obj_get st o p_delims)) as [a l]. cbn [fst snd].
  repeat split.
  - by rewrite obj_get_obj_set_eq.
  - rewrite !obj_get_obj_set_ne by done. by rewrite obj_get_obj_set_eq.
  - rewrite !arr_get_obj_set. by rewrite arr_get_arr_write.
  - rewrite !arr_get_obj_set. by rewrite arr_get_arr_write.
  - rewrite !obj_get_obj_set_ne by done. rewrite obj_get_arr_write.
    by rewrite obj_get_obj_set_eq.
  - rewrite !obj_get_obj_set_ne by done. by rewrite obj_get_obj_set_eq.
Qed.

Lemma default_options_lookup a :
  default_options a !! p_loose = Some (VBool false)
  ∧ default_options a !! p_lang = Some (VStr (js "yaml"))
  ∧ default_options a !! p_delims = Some (VArr a)
  ∧ default_options a !! p_parsers = Some VNull.
Proof. repeat split; vm_compute; reflexivity. Qed.

Lemma obj_get_obj_write st o props k :
  obj_get (obj_write st o props) o k = default VUndefined (props !! k).
Proof. unfold obj_get. by rewrite objs_obj_write, lookup_insert_eq. Qed.

Lemma formatOptions_NoOpts lower st :
  formatOptions lower NoOpts st
  = let a := fresh (dom (arrs st)) in
    let o := fresh (dom (objs st)) in
    (inr o, obj_write (arr_write st a [VStr (js "---"); VStr (js "---")]) o
                      (default_options a)).
Proof. reflexivity. Qed.

(** What [formatOptions] writes, however it ends. *)
Lemma formatOptions_written lower o st :
  written o (delims_array st (obj_get st o p_delims)).1 st
          (formatOptions lower (Opts o) st).2.
Proof.
  assert (Hk : ∀ k, k ∈ [p_lang; p_delims; p_parsers; p_loose]
               <-> k = p_lang ∨ k = p_delims ∨ k = p_parsers ∨ k = p_loose).
  { intros k. rewrite !elem_of_cons, elem_of_nil. tauto. }
  rewrite formatOptions_Opts.
  destruct (obj_locked st o p_lang); [constructor|].
  destruct (lang_or_default st o) as [| | | |s| | |];
    try (cbn [snd]; constructor; [constructor | apply Hk; tauto]).
  cbv zeta. destruct (delims_array st (obj_get st o p_delims)) as [a l].
  cbn [fst snd].
  assert (H1 : written o a st (obj_set (obj_set st o p_lang (VStr s)) o p_lang
                                       (VStr (lower (trim s))))).
  { do 2 (constructor; [|apply Hk; tauto]). constructor. }
  assert (H2 : written o a st (delims_run (obj_set (obj_set st o p_lang (VStr s))
                                 o p_lang (VStr (lower (trim s)))) a l false).2).
  { unfold delims_run. destruct (arr_locked _ a 0); [exact H1|].
    destruct (arr_locked _ a 1); cbn [snd]; by constructor. }
  destruct (delims_run _ a l false) as [[e|r] st2]; cbn [snd] in *; [exact H2|].
  destruct (obj_locked st o p_delims); [exact H2|].
  destruct (obj_locked st o p_parsers);
    [cbn [snd]; constructor; [exact H2 | apply Hk; tauto]|].
  destruct (obj_locked st o p_loose); cbn [snd];
    repeat (constructor; [|apply Hk; tauto]); exact H2.
Qed.

Lemma written_frame o a st st' :
  written o a st st' ->
  registry st' = registry st ∧ calls st' = calls st
  ∧ delivered st' = delivered st
  ∧ fm_yaml st' = fm_yaml st ∧ fm_toml st' = fm_toml st
  ∧ (∀ l k, obj_locked st' l k = obj_locked st l k)
  ∧ (∀ l i, arr_locked st' l i = arr_locked st l i)
  ∧ (∀ l, l ≠ o -> objs st' !! l = objs st !! l)
  ∧ (∀ l, l ≠ a -> arrs st' !! l = arrs st !! l)
  ∧ (∀ k, k ∉ [p_lang; p_delims; p_parsers; p_loose] ->
       obj_get st' o k = obj_get st o k).
Proof.
  induction 1 as [|st' k v _ IH Hk|st' l _ IH]; [done|..];
    destruct IH as (I1 & I2 & I3 & I4 & I5 & I6 & I7 & I8 & I9 & I10).
  - repeat split; try done.
    + intros l k'. by rewrite obj_locked_obj_set.
    + intros l Hl. rewrite objs_obj_set, lookup_insert_ne by done. by apply I8.
    + intros k' Hk'. rewrite obj_get_obj_set_ne; [by apply I10|].
      intros ->. done.
  - repeat split; try done.
    + intros l' i. by rewrite arr_locked_arr_write.
    + intros l' Hl. rewrite arrs_arr_write_ne by done. by apply I9.
Qed.

(** When [formatOptions] returns, every assignment was accepted and the
    options are normalised. *)
Lemma formatOptions_Opts_inv lower o st o' st1 :
  formatOptions lower (Opts o) st = (inr o', st1) ->
  o' = o ∧ opts_writable st (Opts o)
  ∧ ∃ s, lang_or_default st o = VStr s
         ∧ st1 = normalized st o s (lower (trim s)).
Proof.
  rewrite formatOptions_Opts.
  destruct (obj_locked st o p_lang) eqn:L1; [discriminate|].
  destruct (lang_or_default st o) as [| | | |s| | |]; try discriminate.
  cbv zeta. unfold delims_run.
  destruct (delims_array st (obj_get st o p_delims)) as [a l] eqn:Ea.
  cbn [fst snd].
  rewrite !arr_locked_obj_set.
  destruct (arr_locked st a 0) eqn:A0; [discriminate|].
  destruct (arr_locked st a 1) eqn:A1; [discriminate|].
  destruct (delims_outcome l false a); [discriminate|].
  destruct (obj_locked st o p_delims) eqn:L2; [discriminate|].
  destruct (obj_locked st o p_parsers) eqn:L3; [discriminate|].
  destruct (obj_locked st o p_loose) eqn:L4; [discriminate|].
  intros [= <- <-]. split; [done|]. split.
  - unfold opts_writable. rewrite L1, L2, L3, L4. repeat split.
    destruct (obj_get st o p_delims); try exact I.
    cbn in Ea. injection Ea as <- _. by split.
  - exists s. split; [done|]. unfold normalized. by rewrite Ea.
Qed.


Lemma formatOptions_frame lower opts st r st1 :
  formatOptions lower opts st = (r, st1) ->
  registry st1 = registry st ∧ calls st1 = calls st
  ∧ delivered st1 = delivered st.
Proof.
  destruct opts as [|o'|].
  - rewrite formatOptions_NoOpts. cbv zeta. intros [= <- <-]. done.
  - intros Hfo. pose proof (formatOptions_written lower o' st) as Hw.
    rewrite Hfo in Hw. apply written_frame in Hw as (H1 & H2 & H3 & _). done.
  - intros [= <- <-]. done.
Qed.

(** ** [matter], from its normalised arguments on *)

Lemma formatString_spec s st : formatString (VStr s) st = (inr (strip_bom s), st).
Proof. destruct s as [|c s]; [done|]. simpl. by destruct (c =? BOM)%N. Qed.

Lemma matter_detect_spec lower s opts st :
  matter_detect lower (VStr s) opts st
  = match formatOptions lower opts st with
    | (inl e, st1) => (inl e, st1)
    | (inr o, st1) =>
        if bool_decide (strip_bom s = []) then (inr (NoBlock (strip_bom s)), st1)
        else
          match obj_get st1 o p_delims with
          | VArr a =>
              match arr_get st1 a 0, arr_get st1 a 1 with
              | VStr h, VStr f =>
                  (inr (search (strip_bom s) o (truthy (obj_get st1 o p_loose)) h f),
                   st1)
              | _, _ => (inl ErrType, st1)
              end
          | _ => (inl ErrType, st1)
          end
    end.
Proof.
  unfold matter_detect. unfold bind at 1. rewrite formatString_spec.
  unfold bind at 1.
  destruct (formatOptions lower opts st) as [[e|o] st1]; [reflexivity|].
  unfold search.
  destruct (bool_decide (strip_bom s = [])); [reflexivity|].
  unfold delim, as_string. unfold bind, getprop, getelem, ret, throw.
  cbv beta iota.
  destruct (obj_get st1 o p_delims) as [| | | | | |a|] eqn:Ed; try reflexivity.
  destruct (arr_get st1 a 0) as [| | | |h| | |]; try reflexivity.
  cbv beta iota. rewrite Ed.
  destruct (arr_get st1 a 1) as [| | | |f| | |]; try reflexivity.
  destruct (matter_locate _ _ _ _); reflexivity.
Qed.

(** ** [matter.test] as a function of the store *)

Lemma matter_test_spec s opts st :
  matter_test (VStr s) opts st
  = if bool_decide (s = []) then (inr false, st)
    else
      let d := delims_array st (opt_delims st opts) in
      match delims_run st d.1 d.2 true with
      | (inl e, st') => (inl e, st')
      | (inr _, st') =>
          match (filled d.2).1, (filled d.2).2 with
          | VStr h, VStr f =>
              (inr (test_locate (negb (truthy (opt_loose st opts))) h f s), st')
          | _, _ => (inr false, st')
          end
      end.
Proof.
  unfold matter_test. destruct (bool_decide (s = [])); [reflexivity|].
  unfold bind at 1.
  assert (Hd : (match opts with
                | Opts o => getprop o p_delims
                | NoOpts | OptsPrim => ret VUndefined
                end) st = (inr (opt_delims st opts), st))
    by (destruct opts; reflexivity).
  rewrite Hd. unfold bind at 1. rewrite formatDelimiters_spec.
  cbv zeta. destruct (delims_array st (opt_delims st opts)) as [a l].
  cbn [fst snd]. unfold delims_run.
  destruct (arr_locked st a 0); [reflexivity|].
  destruct (arr_locked st a 1); [reflexivity|].
  unfold delims_outcome.
  set (st' := arr_write st a _).
  assert (H0 : arr_get st' a 0 = (filled l).1) by apply arr_get_arr_write.
  assert (H1 : arr_get st' a 1 = (filled l).2) by apply arr_get_arr_write.
  assert (Hl : (match opts with
                | Opts o => getprop o p_loose
                | NoOpts | OptsPrim => ret VUndefined
                end) st' = (inr (opt_loose st opts), st'))
    by (destruct opts; reflexivity).
  destruct (filled l).1 as [| | | |h| | |]; try reflexivity.
  all: destruct (filled l).2 as [| | | |f| | |]; try reflexivity.
  cbn [is_string andb].
  unfold bind, getelem, as_string. cbv beta iota. rewrite H0. run.
  rewrite H1. run. rewrite Hl. reflexivity.
Qed.

(** With an array that accepts the two assignments. *)
Lemma matter_test_open s opts st :
  delims_writable st (opt_delims st opts) ->
  matter_test (VStr s) opts st
  = if bool_decide (s = []) then (inr false, st)
    else
      let d := delims_array st (opt_delims st opts) in
      let st' := arr_write st d.1 ((filled d.2).1 :: (filled d.2).2 :: drop 2 d.2) in
      match (filled d.2).1, (filled d.2).2 with
      | VStr h, VStr f =>
          (inr (test_locate (negb (truthy (opt_loose st opts))) h f s), st')
      | _, _ => (inr false, st')
      end.
Proof.
  intros Hw. rewrite matter_test_spec. destruct (bool_decide (s = [])); [done|].
  cbv zeta. apply delims_array_open in Hw. rewrite delims_run_open by done.
  unfold delims_outcome. by destruct (is_string _ && is_string _).
Qed.

(** ** The options [matter] accepts *)

Lemma formatOptions_cases lower opts st :
  match formatOptions lower opts st with
  | (inr o, st1) =>
      opts_writable st opts ∧ lang_valid st opts ∧ delims_valid st opts
      ∧ (∃ a, obj_get st1 o p_delims = VArr a
              ∧ arr_get st1 a 0 = (opt_pair st opts).1
              ∧ arr_get st1 a 1 = (opt_pair st opts).2)
      ∧ obj_get st1 o p_loose = VBool (truthy (opt_loose st opts))
  | (inl e, st1) =>
      (e = ErrType ∧ ¬ opts_writable st opts)
      ∨ (e = ErrLang ∧ ¬ lang_valid st opts)
      ∨ (e = ErrDelims ∧ lang_valid st opts ∧ ¬ delims_valid st opts)
  end.
Proof.
  destruct opts as [|o|].
  - rewrite formatOptions_NoOpts. cbv zeta.
    destruct (default_options_lookup (fresh (dom (arrs st)))) as (L1 & L2 & L3 & L4).
    rewrite !obj_get_obj_write, L1, L3.
    split; [exact I|]. split; [exact I|]. split; [split; reflexivity|].
    split; [|reflexivity].
    exists (fresh (dom (arrs st))). split; [reflexivity|].
    unfold arr_get. change (arrs (obj_write ?s _ _)) with (arrs s).
    rewrite arrs_arr_write_eq. split; reflexivity.
  - rewrite formatOptions_Opts. unfold lang_valid, delims_valid, opt_pair.
    cbn [opt_delims opt_loose opts_writable].
    destruct (obj_locked st o p_lang) eqn:L1.
    { left. split; [done|]. intros (? & _). congruence. }
    destruct (lang_or_default st o) as [| | | |s| | |] eqn:El;
      try (right; left; split; [reflexivity | cbn; congruence]).
    cbv zeta. unfold delims_run. rewrite !arr_locked_obj_set.
    assert (Hopen : arr_open st (delims_array st (obj_get st o p_delims)).1
                    -> delims_writable st (obj_get st o p_delims)).
    { destruct (obj_get st o p_delims); done. }
    assert (Hopen' : delims_writable st (obj_get st o p_delims)
                     -> arr_open st (delims_array st (obj_get st o p_delims)).1)
      by apply delims_array_open.
    destruct (arr_locked st _ 0) eqn:A0.
    { left. split; [done|]. intros (_ & _ & _ & _ & Hd).
      apply Hopen' in Hd as [Hd _]. congruence. }
    destruct (arr_locked st _ 1) eqn:A1.
    { left. split; [done|]. intros (_ & _ & _ & _ & Hd).
      apply Hopen' in Hd as [_ Hd]. congruence. }
    unfold delims_outcome.
    destruct (normalized_reads st o s (lower (trim s)))
      as (R1 & R2 & R3 & R4 & _).
    destruct (is_string (filled _).1) eqn:E1; cbn [andb];
      [destruct (is_string (filled _).2) eqn:E2|];
      try (right; right; repeat split; intros [H1 H2]; congruence).
    destruct (obj_locked st o p_delims) eqn:L2.
    { left. split; [done|]. intros (_ & ? & _). congruence. }
    destruct (obj_locked st o p_parsers) eqn:L3.
    { left. split; [done|]. intros (_ & _ & ? & _). congruence. }
    destruct (obj_locked st o p_loose) eqn:L4.
    { left. split; [done|]. intros (_ & _ & _ & ? & _). congruence. }
    split; [repeat split; by apply Hopen|].
    repeat split; eauto.
  - left. split; [reflexivity|]. intros [].
Qed.

(** ** The dispatch of [matter] as a function of the store *)

Lemma select_parser_spec parsers lang st :
  select_parser parsers lang st = (inr (chosen st parsers lang), st).
Proof.
  unfold select_parser, chosen, bind, getprop, registered, ret.
  destruct parsers as [| | | | |p| |]; try reflexivity.
  cbv beta iota. cbn [nonnull andb]. by destruct (truthy _).
Qed.

Lemma matter_extract_spec lower code str o header loose ds de bs st :
  matter_extract lower code str o header loose ds de bs st
  = if ds <? de then
      match language lower st o str header ds with
      | VStr lang =>
          match chosen st (obj_get st o p_parsers) lang with
          | VFun f =>
              with_data str (substr_from str bs)
                (call (code f) (metadata str ds de) loose st)
          | _ => (inl (ErrNoParser lang), st)
          end
      | _ => (inl ErrType, st)
      end
    else (inr (Result str VNull (substr_from str bs)), st).
Proof.
  unfold matter_extract, language, metadata.
  destruct (ds <? de); [|reflexivity].
  unfold bind at 1.
  set (tag := lower _).
  assert (Hlang : (if bool_decide (tag = [])
                   then l <- getprop o p_lang ;; as_string l else ret tag) st
                  = match (if bool_decide (tag = []) then obj_get st o p_lang
                           else VStr tag) with
                    | VStr lang => (inr lang, st)
                    | _ => (inl ErrType, st)
                    end).
  { destruct (bool_decide (tag = [])); [|reflexivity].
    unfold bind, getprop, as_string. by destruct (obj_get st o p_lang). }
  rewrite Hlang. clear Hlang.
  destruct (if bool_decide (tag = []) then obj_get st o p_lang else VStr tag)
    as [| | | |lang| | |]; try reflexivity.
  unfold bind at 1. unfold getprop. run. unfold bind at 1.
  rewrite select_parser_spec.
  destruct (chosen st (obj_get st o p_parsers) lang) as [| | | | | | |f];
    reflexivity.
Qed.

Lemma with_data_inr str b out r st' :
  with_data str b out = (inr r, st') ->
  ∃ v, out = (inr v, st') ∧ r = Result str v b.
Proof. destruct out as [[e|v] st0]; [discriminate|]. intros [= <- <-]. eauto. Qed.

Lemma with_data_snd str b out : (with_data str b out).2 = out.2.
Proof. by destruct out as [[e|v] st]. Qed.

Lemma matter_extract_returns lower code str o h l ds de bs st r st' :
  matter_extract lower code str o h l ds de bs st = (inr r, st') ->
  src r = str ∧ body r = substr_from str bs.
Proof.
  rewrite matter_extract_spec.
  destruct (ds <? de); [|by intros [= <- _]].
  destruct (language _ _ _ _ _ _) as [| | | |lang| | |]; try discriminate.
  destruct (chosen _ _ _) as [| | | | | | |f]; try discriminate.
  intros H. by apply with_data_inr in H as (v & _ & ->).
Qed.

Lemma call_calls p text loose st :
  calls (call p text loose st).2 = calls st ++ [(text, loose)]
  ∧ delivered (call p text loose st).2 = delivered st.
Proof. done. Qed.

(** ** Presence check and extraction *)

Lemma strip_bom_id s : head s ≠ Some BOM -> strip_bom s = s.
Proof.
  destruct s as [|c s]; [done|]. simpl. intros H.
  destruct (N.eqb_spec c BOM) as [->|_]; [by destruct H | done].
Qed.

Lemma search_block s o loose header footer :
  (∃ o' h l ds de bs, search s o loose header footer = Block s o' h l ds de bs)
  <-> s ≠ [] ∧ matter_locate loose header footer s ≠ Absent.
Proof.
  unfold search. destruct (bool_decide_reflect (s = [])) as [->|Hs].
  - split; [intros (?&?&?&?&?&?&?); discriminate | intros [? _]; done].
  - destruct (matter_locate loose header footer s); split.
    + intros (?&?&?&?&?&?&?); discriminate.
    + intros [_ ?]; done.
    + done.
    + eauto 10.
Qed.

Lemma opts_writable_delims st opts :
  opts_writable st opts -> delims_writable st (opt_delims st opts).
Proof. destruct opts as [|o|]; [done | | done]. by intros (_ & _ & _ & _ & H). Qed.

(** C1, as amended.  For a text that does not begin with a byte-order mark
    and options that accept the assignments of [formatOptions] and whose
    [lang] is absent, [null] or a string, [matter.test] returns [true] exactly
    when lines 20 to 57 of [matter] locate a block.  The store is arbitrary:
    neither [opts.parsers] nor the registry [matter.parsers] plays a part. *)
Theorem test_agrees_with_matter lower s opts st :
  head s ≠ Some BOM -> opts_writable st opts -> lang_valid st opts ->
  (matter_test (VStr s) opts st).1 = inr true
  <-> ∃ o header loose dataStart dataEnd bodyStart,
        (matter_detect lower (VStr s) opts st).1
        = inr (Block s o header loose dataStart dataEnd bodyStart).
Proof.
  intros Hbom Hwr Hlang.
  rewrite (matter_test_open s opts st (opts_writable_delims _ _ Hwr)).
  rewrite matter_detect_spec, (strip_bom_id s Hbom).
  pose proof (formatOptions_cases lower opts st) as Hc.
  destruct (formatOptions lower opts st) as [[e|o] st1].
  - destruct Hc as [[_ Hc]|[[_ Hc]|(_ & _ & Hc)]]; [done..|].
    destruct (bool_decide (s = [])); cbn [fst].
    { split; [discriminate | intros (?&?&?&?&?&?&?); discriminate]. }
    cbv zeta. fold (opt_pair st opts).
    unfold delims_valid in Hc.
    destruct (opt_pair st opts).1 as [| | | |h| | |];
      try (split; [discriminate | intros (?&?&?&?&?&?&?); discriminate]).
    destruct (opt_pair st opts).2 as [| | | |f| | |];
      try (split; [discriminate | intros (?&?&?&?&?&?&?); discriminate]).
    destruct Hc; done.
  - destruct Hc as (_ & _ & [Hh Hf] & (a & Ha & H0 & H1) & Hl).
    destruct (bool_decide_reflect (s = [])) as [->|Hs]; cbn [fst].
    { split; [discriminate | intros (?&?&?&?&?&?&?); discriminate]. }
    cbv zeta. fold (opt_pair st opts). rewrite Ha, H0, H1, Hl.
    destruct (opt_pair st opts).1 as [| | | |h| | |]; try discriminate.
    destruct (opt_pair st opts).2 as [| | | |f| | |]; try discriminate.
    cbn [fst truthy].
    pose proof (search_block s o (truthy (opt_loose st opts)) h f) as Hb.
    pose proof (test_locate_matter_locate (negb (truthy (opt_loose st opts)))
                  h f s) as Ht.
    rewrite negb_involutive in Ht.
    split.
    + intros [= Htest]. apply Ht in Htest.
      destruct Hb as [_ Hb]. destruct (Hb (conj Hs Htest))
        as (o' & h' & l' & ds & de & bs & Hb').
      rewrite Hb'. eauto 10.
    + intros (o' & h' & l' & ds & de & bs & [= Hb']).
      destruct Hb as [Hb _]. destruct Hb as [_ Hb]; [eauto 10|].
      f_equal. by apply Ht.
Qed.

Lemma test_agrees_with_matter_witness :
  let st := State {[ 1%positive := {[ p_lang := VStr (js " YAML ");
                                      p_delims := VArr 1%positive ]} ]}
                  {[ 1%positive := [VStr (js "~~~")] ]} ∅ [] [] in
  let s := js "~~~" ++ [LF] ++ js "a: 1" ++ [LF] ++ js "~~~" in
  head s ≠ Some BOM ∧ opts_writable st (Opts 1%positive)
  ∧ lang_valid st (Opts 1%positive)
  ∧ (matter_test (VStr s) (Opts 1%positive) st).1 = inr true
  ∧ ∃ o header loose dataStart dataEnd bodyStart,
      (matter_detect ascii_lower (VStr s) (Opts 1%positive) st).1
      = inr (Block s o header loose dataStart dataEnd bodyStart).
Proof.
  cbv zeta.
  set (st := State {[ 1%positive := {[ p_lang := VStr (js " YAML ");
                                       p_delims := VArr 1%positive ]} ]}
                   {[ 1%positive := [VStr (js "~~~")] ]} ∅ [] []).
  set (s := js "~~~" ++ [LF] ++ js "a: 1" ++ [LF] ++ js "~~~").
  assert (H1 : head s ≠ Some BOM) by (vm_compute; discriminate).
  assert (H2 : opts_writable st (Opts 1%positive))
    by (repeat split; vm_compute; reflexivity).
  assert (H3 : lang_valid st (Opts 1%positive)) by (vm_compute; reflexivity).
  assert (H4 : (matter_test (VStr s) (Opts 1%positive) st).1 = inr true)
    by (vm_compute; reflexivity).
  refine (conj H1 (conj H2 (conj H3 (conj H4 _)))).
  exact (proj1 (test_agrees_with_matter ascii_lower s (Opts 1%positive) st H1 H2 H3)
           H4).
Defined.

(** C1, as stated, fails: with [{lang: 5}] as options [matter.test] returns
    [true] for a text that holds a block, while [matter] throws before it
    looks at the text.  So it is with a frozen object as options, to which
    [matter] alone assigns.  (The two also differ on a text behind a
    byte-order mark, which [matter] strips and [matter.test] keeps.) *)
Lemma test_true_matter_rejects_options :
  let s := dashes ++ [LF] ++ dashes in
  let st := State {[ 1%positive := {[ p_lang := VNum 5 ]} ]} ∅ ∅ [] [] in
  let frozen := MkState {[ 1%positive := Object ∅ (fun _ => true) ]} ∅ ∅
                        false false [] [] in
  (matter_test (VStr s) (Opts 1%positive) st).1 = inr true
  ∧ (matter_detect ascii_lower (VStr s) (Opts 1%positive) st).1 = inl ErrLang
  ∧ (matter ascii_lower echoes (VStr s) (Opts 1%positive) st).1 = inl ErrLang
  ∧ (¬ ∃ o header loose dataStart dataEnd bodyStart,
        (matter_detect ascii_lower (VStr s) (Opts 1%positive) st).1
        = inr (Block s o header loose dataStart dataEnd bodyStart))
  ∧ (matter_test (VStr s) (Opts 1%positive) frozen).1 = inr true
  ∧ (matter_detect ascii_lower (VStr s) (Opts 1%positive) frozen).1 = inl ErrType
  ∧ (matter_test (VStr s) OptsPrim frozen).1 = inr true
  ∧ (matter_detect ascii_lower (VStr s) OptsPrim frozen).1 = inl ErrType.
Proof.
  cbv zeta.
  assert (H : (matter_detect ascii_lower (VStr (dashes ++ [LF] ++ dashes))
                 (Opts 1%positive)
                 (State {[ 1%positive := {[ p_lang := VNum 5 ]} ]} ∅ ∅ [] [])).1
              = inl ErrLang) by (vm_compute; reflexivity).
  split; [vm_compute; reflexivity|]. split; [exact H|].
  split; [vm_compute; reflexivity|].
  split; [|repeat split; vm_compute; reflexivity].
  intros (?&?&?&?&?&?&H'). rewrite H in H'. discriminate.
Qed.

(** ** [matter] as a whole *)

Lemma matter_detect_inv lower s opts st f st1 :
  matter_detect lower (VStr s) opts st = (inr f, st1) ->
  ∃ o h ft,
    formatOptions lower opts st = (inr o, st1)
    ∧ opt_pair st opts = (VStr h, VStr ft)
    ∧ f = search (strip_bom s) o (truthy (opt_loose st opts)) h ft.
Proof.
  rewrite matter_detect_spec.
  pose proof (formatOptions_cases lower opts st) as Hc.
  destruct (formatOptions lower opts st) as [[e|o] st0]; [discriminate|].
  destruct Hc as (_ & _ & [Hh Hf] & (a & Ha & H0 & H1) & Hl).
  destruct (opt_pair st opts) as [vh vf] eqn:Ep. cbn [fst snd] in *.
  destruct vh as [| | | |h| | |]; try discriminate.
  destruct vf as [| | | |ft| | |]; try discriminate.
  rewrite Ha, H0, H1, Hl. cbn [truthy].
  destruct (bool_decide (strip_bom s = [])) eqn:Es.
  - intros [= <- <-]. exists o, h, ft. unfold search. by rewrite Es.
  - intros [= <- <-]. by exists o, h, ft.
Qed.

Lemma matter_unfold lower code str opts st :
  matter lower code str opts st
  = match matter_detect lower str opts st with
    | (inl e, st1) => (inl e, st1)
    | (inr (NoBlock s), st1) => (inr (Result s VNull s), st1)
    | (inr (Block s o h l ds de bs), st1) =>
        matter_extract lower code s o h l ds de bs st1
    end.
Proof.
  unfold matter, bind. destruct (matter_detect lower str opts st) as [[e|[]] st1];
    reflexivity.
Qed.

Lemma matter_not_string lower code str opts st :
  is_string str = false -> matter lower code str opts st = (inl ErrNotString, st).
Proof. destruct str; try discriminate; reflexivity. Qed.

Lemma search_str s o l h ft :
  match search s o l h ft with
  | NoBlock s' => s' = s
  | Block s' o' h' l' _ _ _ => s' = s ∧ o' = o ∧ h' = h ∧ l' = l
  end.
Proof.
  unfold search. destruct (bool_decide (s = [])); [done|].
  by destruct (matter_locate l h ft s).
Qed.

Lemma matter_locate_no_header loose header footer str :
  startsAt header str = false -> matter_locate loose header footer str = Absent.
Proof.
  unfold startsAt, matter_locate, substr. rewrite drop_0. by intros ->.
Qed.

Lemma matter_locate_empty loose header footer :
  matter_locate loose header footer [] = Absent.
Proof.
  unfold matter_locate. destruct (negb _ || _); [done|].
  unfold indexOf. rewrite Nat.min_0_r. reflexivity.
Qed.

(** What [matter] returns for a text without byte-order mark: the text as it
    is when no block is found, else the part of it from [bodyStart] on as
    [body] (line 76). *)
Lemma matter_returns lower code s opts st r st' h ft :
  head s ≠ Some BOM -> opt_pair st opts = (VStr h, VStr ft) ->
  matter lower code (VStr s) opts st = (inr r, st') ->
  match matter_locate (truthy (opt_loose st opts)) h ft s with
  | Absent => r = Result s VNull s
  | Present _ _ bodyStart => src r = s ∧ body r = substr_from s bodyStart
  end.
Proof.
  intros Hbom Hpair. rewrite matter_unfold.
  destruct (matter_detect lower (VStr s) opts st) as [[e|f] st1] eqn:Ed;
    [discriminate|].
  apply matter_detect_inv in Ed as (o & h' & ft' & _ & Hp & ->).
  rewrite Hpair in Hp. injection Hp as <- <-.
  rewrite (strip_bom_id s Hbom). unfold search.
  destruct (bool_decide_reflect (s = [])) as [->|Hs].
  { rewrite matter_locate_empty. by intros [= <- _]. }
  destruct (matter_locate _ h ft s) as [|ds de bs]; [by intros [= <- _]|].
  apply matter_extract_returns.
Qed.

(** ** The guards of strict mode *)

Lemma repeats_last_reflect delim str i :
  negb (bool_decide (str !! i = Some LF)) && bool_decide (str !! i = last delim)
  = true <-> repeats_last delim str i.
Proof.
  unfold repeats_last. rewrite andb_true_iff, negb_true_iff.
  rewrite bool_decide_eq_false, bool_decide_eq_true. done.
Qed.

Lemma repeats_last_false delim str i :
  ¬ repeats_last delim str i ->
  negb (bool_decide (str !! i = Some LF)) && bool_decide (str !! i = last delim)
  = false.
Proof.
  intros H. destruct (negb _ && _) eqn:E; [|done].
  by apply repeats_last_reflect in E.
Qed.

Lemma header_passed strict header str :
  substr str 0 (length header) = header ->
  (strict = true -> length header < length str ->
   ¬ repeats_last header str (length header)) ->
  negb (bool_decide (substr str 0 (length header) = header))
  || (strict && (length header <? length str)
      && negb (bool_decide (str !! length header = Some LF))
      && bool_decide (str !! length header = last header)) = false.
Proof.
  intros Hh Hg. rewrite bool_decide_eq_true_2 by done. cbn [negb orb].
  destruct strict; [|done]. cbn [andb].
  destruct (Nat.ltb_spec (length header) (length str)) as [Hlt|_]; [|done].
  cbn [andb]. apply repeats_last_false. by apply Hg.
Qed.

Lemma locate_reached strict header footer str ds de :
  reaches_footer strict header footer str ds de ->
  let p := de + 1 + length footer in
  matter_locate (negb strict) header footer str
  = match (if strict && (p <? length str) then
             if negb (bool_decide (str !! p = Some LF))
                && bool_decide (str !! p = last footer)
             then None else matter_scan (substr_from str p) p
           else Some p) with
    | None => Absent
    | Some b => Present ds de (if bool_decide (str !! b = Some LF) then S b else b)
    end
  ∧ test_locate strict header footer str
    = (if strict && (p <? length str) then
         if negb (bool_decide (str !! p = Some LF))
            && bool_decide (str !! p = last footer)
         then false else test_scan (substr_from str p)
       else true).
Proof.
  intros (Hh & Hg & Hds & Hde). cbv zeta.
  unfold matter_locate, test_locate. rewrite negb_involutive.
  rewrite (header_passed strict header str Hh Hg), Hds, Hde. done.
Qed.

(** C3.  Once the footer is found at [dataEnd], with
    [p = dataEnd + 1 + footer.length]: in strict mode and with [p] inside the
    text, a character at [p] that is not a newline and repeats the last
    character of the footer makes both functions reject; otherwise the rest
    of the footer's line, [line], is scanned up to its newline or the end of
    the text, a character that is not white space makes both reject, and
    with white space only the block is found and the body is what follows
    the newline of that line.  In loose mode the block is found at once and
    the body starts at [p], or one further when a newline is there.  What
    [matter] returns as [body] is the text from that [bodyStart] on, and the
    whole text where the block is rejected. *)
Theorem footer_guard strict header footer str dataStart dataEnd :
  reaches_footer strict header footer str dataStart dataEnd ->
  let p := dataEnd + 1 + length footer in
  (strict = true -> p < length str -> repeats_last footer str p ->
   matter_locate false header footer str = Absent
   ∧ test_locate true header footer str = false)
  ∧ (strict = true -> p < length str -> ¬ repeats_last footer str p ->
     ∀ line rest,
       substr_from str p = line ++ rest -> LF ∉ line ->
       rest = [] ∨ head rest = Some LF ->
       (forallb isWhiteSpace line = false ->
        matter_locate false header footer str = Absent
        ∧ test_locate true header footer str = false)
       ∧ (forallb isWhiteSpace line = true ->
          let bodyStart := p + length line + length (take 1 rest) in
          matter_locate false header footer str
          = Present dataStart dataEnd bodyStart
          ∧ substr_from str p = line ++ take 1 rest ++ substr_from str bodyStart
          ∧ test_locate true header footer str = true))
  ∧ (strict = false ->
     matter_locate true header footer str
     = Present dataStart dataEnd
         (if bool_decide (str !! p = Some LF) then S p else p)
     ∧ substr_from str p
       = (if bool_decide (str !! p = Some LF) then [LF] else [])
         ++ substr_from str (if bool_decide (str !! p = Some LF) then S p else p)
     ∧ test_locate false header footer str = true)
  ∧ (∀ lower code opts st r st',
       head str ≠ Some BOM ->
       opt_pair st opts = (VStr header, VStr footer) ->
       truthy (opt_loose st opts) = negb strict ->
       matter lower code (VStr str) opts st = (inr r, st') ->
       (matter_locate (negb strict) header footer str = Absent ->
        r = Result str VNull str)
       ∧ (∀ bodyStart,
            matter_locate (negb strict) header footer str
            = Present dataStart dataEnd bodyStart ->
            src r = str ∧ body r = substr_from str bodyStart)).
Proof.
  intros Hr p. destruct (locate_reached _ _ _ _ _ _ Hr) as [Hm Ht].
  fold p in Hm, Ht. split; [|split; [|split]].
  4: { intros lower code opts st r st' Hbom Hpair Hloose Hret.
       pose proof (matter_returns _ _ _ _ _ _ _ _ _ Hbom Hpair Hret) as H.
       rewrite Hloose in H.
       destruct (matter_locate (negb strict) header footer str) as [|ds de bs].
       - split; [done|]. intros; discriminate.
       - split; [discriminate|]. by intros b [= _ _ <-]. }
  - intros -> Hp Hg. cbn [negb andb] in Hm, Ht.
    apply Nat.ltb_lt in Hp. rewrite Hp in Hm, Ht.
    apply repeats_last_reflect in Hg. rewrite Hg in Hm, Ht. done.
  - intros -> Hp Hg line rest Hsplit Hline Hrest. cbn [negb andb] in Hm, Ht.
    apply Nat.ltb_lt in Hp. rewrite Hp in Hm, Ht.
    rewrite (repeats_last_false _ _ _ Hg) in Hm, Ht.
    pose proof (test_scan_matter_scan (substr_from str p) p) as Hts.
    rewrite Hsplit in Hm, Ht, Hts.
    rewrite (matter_scan_line line rest p Hline Hrest) in Hm, Hts.
    split; intros Hws; rewrite Hws in Hm, Hts.
    + split; [exact Hm|]. rewrite Ht.
      destruct (test_scan (line ++ rest)); [|done].
      destruct Hts as [Hts _]. destruct Hts as [? ?]; done.
    + cbv zeta.
      assert (Hat : str !! (p + length line) = head rest).
      { rewrite <- lookup_drop. unfold substr_from in Hsplit. rewrite Hsplit.
        rewrite lookup_app_r by lia. rewrite Nat.sub_diag. by destruct rest. }
      assert (Hbody : substr_from str (p + length line + length (take 1 rest))
                      = drop 1 rest).
      { unfold substr_from in *.
        rewrite <- Nat.add_assoc, <- drop_drop, Hsplit.
        rewrite <- drop_drop, drop_app_length. by destruct rest. }
      split; [|split].
      * rewrite Hm, Hat. destruct Hrest as [->|Hhd].
        -- cbn. by rewrite Nat.add_0_r.
        -- rewrite Hhd. rewrite bool_decide_eq_true_2 by done.
           destruct rest; [done|]. cbn [take length]. rewrite take_0.
           cbn [length]. f_equal. lia.
      * rewrite Hbody. by rewrite take_drop.
      * rewrite Ht. apply Hts. eauto.
  - intros ->. cbn [negb andb] in Hm, Ht. split; [exact Hm|]. split; [|exact Ht].
    unfold substr_from.
    destruct (bool_decide_reflect (str !! p = Some LF)) as [Hlf|_]; [|done].
    cbn [app]. by apply drop_S.
Qed.

Lemma footer_guard_witness :
  let str := dashes ++ [LF] ++ js "foo" ++ [LF] ++ dashes ++ [32%N; LF] ++ js "body" in
  let st := State ∅ ∅ {[ js "yaml" := VFun echo ]} [] [] in
  reaches_footer true dashes dashes str 3 7
  ∧ matter_locate false dashes dashes str = Present 3 7 13
  ∧ substr_from str 13 = js "body"
  ∧ test_locate true dashes dashes str = true
  ∧ ∃ r st', matter ascii_lower echoes (VStr str) NoOpts st = (inr r, st')
             ∧ body r = js "body".
Proof.
  cbv zeta.
  set (str := dashes ++ [LF] ++ js "foo" ++ [LF] ++ dashes ++ [32%N; LF] ++ js "body").
  set (st := State ∅ ∅ {[ js "yaml" := VFun echo ]} [] []).
  assert (Hr : reaches_footer true dashes dashes str 3 7).
  { split; [vm_compute; reflexivity|]. split; [|split; vm_compute; reflexivity].
    intros _ _ [H _]. vm_compute in H. by destruct H. }
  split; [exact Hr|].
  destruct (footer_guard true dashes dashes str 3 7 Hr) as (_ & H & _ & Hbody).
  assert (Hp : 7 + 1 + length dashes < length str) by (vm_compute; lia).
  assert (Hg : ¬ repeats_last dashes str (7 + 1 + length dashes)).
  { intros [_ Hg]. vm_compute in Hg. discriminate Hg. }
  destruct (H eq_refl Hp Hg [32%N] (LF :: js "body")) as [_ Hw].
  - vm_compute; reflexivity.
  - intros Hin. apply list_elem_of_singleton in Hin. discriminate Hin.
  - right; reflexivity.
  - destruct (Hw eq_refl) as (H1 & _ & H3).
    split; [exact H1|]. split; [vm_compute; reflexivity|]. split; [exact H3|].
    destruct (matter ascii_lower echoes (VStr str) NoOpts st) as [out st'] eqn:Em.
    assert (Hout : ∃ r, out = inr r).
    { change out with (out, st').1. rewrite <- Em. vm_compute. eauto. }
    destruct Hout as [r ->]. exists r, st'. split; [reflexivity|].
    assert (Hbom : head str ≠ Some BOM) by (vm_compute; discriminate).
    destruct (Hbody ascii_lower echoes NoOpts st r st' Hbom eq_refl eq_refl Em)
      as [_ Hb].
    destruct (Hb 13 H1) as [_ ->]. vm_compute. reflexivity.
Defined.

(** C2, as amended.  In strict mode, for a text that starts with the header
    and is longer, both functions reject when the character after the header
    is not a newline and repeats the header's last character; when they
    reject without that, the newline or the footer is missing or the footer's
    line is refused.  In loose mode the character after the header plays no
    part: a block is found exactly when the newline and the footer are.  With
    the default delimiters, four dashes, a newline and three dashes are
    refused by [matter.test], and accepted with [{loose: true}]. *)
Theorem header_guard header footer str :
  substr str 0 (length header) = header -> length header < length str ->
  (repeats_last header str (length header) ->
   matter_locate false header footer str = Absent
   ∧ test_locate true header footer str = false)
  ∧ (¬ repeats_last header str (length header) ->
     matter_locate false header footer str = Absent
     ∨ test_locate true header footer str = false ->
     indexOf str [LF] (length header) = None
     ∨ (∃ ds, indexOf str [LF] (length header) = Some ds
              ∧ indexOf str (LF :: footer) ds = None)
     ∨ (∃ ds de, reaches_footer true header footer str ds de
                 ∧ de + 1 + length footer < length str
                 ∧ (repeats_last footer str (de + 1 + length footer)
                    ∨ test_scan (substr_from str (de + 1 + length footer))
                      = false)))
  ∧ (matter_locate true header footer str ≠ Absent
     <-> ∃ ds de, indexOf str [LF] (length header) = Some ds
                  ∧ indexOf str (LF :: footer) ds = Some de)
  ∧ (test_locate false header footer str = true
     <-> ∃ ds de, indexOf str [LF] (length header) = Some ds
                  ∧ indexOf str (LF :: footer) ds = Some de)
  ∧ (∀ st, (matter_test (VStr (js "----" ++ [LF] ++ dashes)) NoOpts st).1
           = inr false)
  ∧ (∀ st o, nonnull (obj_get st o p_delims) = false ->
             truthy (obj_get st o p_loose) = true ->
             (matter_test (VStr (js "----" ++ [LF] ++ dashes)) (Opts o) st).1
             = inr true).
Proof.
  intros Hh Hlen.
  assert (Hloose : ∀ b, test_locate false header footer str = b
            -> (b = true <-> ∃ ds de, indexOf str [LF] (length header) = Some ds
                             ∧ indexOf str (LF :: footer) ds = Some de)).
  { intros b <-. unfold test_locate.
    rewrite (header_passed false header str Hh) by discriminate.
    destruct (indexOf str [LF] (length header)) as [ds|] eqn:Eds.
    - destruct (indexOf str (LF :: footer) ds) as [de|] eqn:Ede.
      + cbn [andb]. split; eauto.
      + split; [discriminate|]. intros (?&?&[= <-]&?). congruence.
    - split; [discriminate|]. intros (?&?&?&?). discriminate. }
  split; [|split; [|split; [|split; [|split]]]].
  - intros Hg.
    assert (Ht : test_locate true header footer str = false).
    { unfold test_locate. apply Nat.ltb_lt in Hlen. rewrite Hlen.
      apply repeats_last_reflect in Hg. cbn [andb].
      rewrite Hg. by rewrite orb_true_r. }
    split; [|exact Ht].
    pose proof (test_locate_matter_locate true header footer str) as [_ H].
    destruct (matter_locate (negb true) header footer str) eqn:E; [done|].
    rewrite H in Ht; [discriminate | done].
  - intros Hg Habs.
    assert (Ht : test_locate true header footer str = false).
    { destruct Habs as [Habs|Habs]; [|exact Habs].
      pose proof (test_locate_matter_locate true header footer str) as [H _].
      destruct (test_locate true header footer str); [|done].
      destruct (H eq_refl). exact Habs. }
    clear Habs.
    destruct (indexOf str [LF] (length header)) as [ds|] eqn:Eds; [|by left].
    destruct (indexOf str (LF :: footer) ds) as [de|] eqn:Ede;
      [|right; left; eauto].
    right; right. exists ds, de.
    assert (Hr : reaches_footer true header footer str ds de).
    { split; [done|]. split; [by intros _ _|]. done. }
    split; [exact Hr|].
    destruct (locate_reached _ _ _ _ _ _ Hr) as [_ Ht'].
    rewrite Ht in Ht'. cbn [andb] in Ht'.
    destruct (Nat.ltb_spec (de + 1 + length footer) (length str)) as [Hp|_];
      [|discriminate].
    split; [exact Hp|].
    destruct (negb _ && _) eqn:Eg.
    + left. by apply repeats_last_reflect.
    + right. done.
  - rewrite <- (test_locate_matter_locate false header footer str).
    by apply Hloose.
  - by apply Hloose.
  - intros st. rewrite matter_test_open by exact I. reflexivity.
  - intros st o Hd Hl. rewrite matter_test_open
      by (cbn [opt_delims]; by destruct (obj_get st o p_delims)).
    rewrite bool_decide_eq_false_2 by (vm_compute; discriminate).
    cbn [opt_delims opt_loose]. rewrite Hl.
    assert (Hf : filled (delims_array st (obj_get st o p_delims)).2
                 = (VStr dashes, VStr dashes)).
    { destruct (obj_get st o p_delims); try discriminate Hd; reflexivity. }
    cbv zeta. rewrite Hf. cbn [fst snd negb]. f_equal.
Qed.

Lemma header_guard_witness :
  let str := js "----" ++ [LF] ++ dashes in
  substr str 0 (length dashes) = dashes ∧ length dashes < length str
  ∧ repeats_last dashes str (length dashes)
  ∧ matter_locate false dashes dashes str = Absent
  ∧ test_locate true dashes dashes str = false
  ∧ matter_locate true dashes dashes str ≠ Absent.
Proof.
  cbv zeta. set (str := js "----" ++ [LF] ++ dashes).
  assert (H1 : substr str 0 (length dashes) = dashes) by (vm_compute; reflexivity).
  assert (H2 : length dashes < length str) by (vm_compute; lia).
  assert (H3 : repeats_last dashes str (length dashes)).
  { split; [vm_compute; discriminate | vm_compute; reflexivity]. }
  destruct (header_guard dashes dashes str H1 H2) as (G1 & _ & G3 & _).
  destruct (G1 H3) as [G1a G1b].
  refine (conj H1 (conj H2 (conj H3 (conj G1a (conj G1b _))))).
  apply G3. exists 4, 4. split; vm_compute; reflexivity.
Defined.

(** C2, as stated, fails: three dashes and a newline start with the header
    and are longer, what follows the header is a newline, and both functions
    reject in strict mode all the same (no footer follows). *)
Lemma strict_rejects_without_repeat :
  let str := dashes ++ [LF] in
  substr str 0 (length dashes) = dashes ∧ length dashes < length str
  ∧ matter_locate false dashes dashes str = Absent
  ∧ test_locate true dashes dashes str = false
  ∧ ¬ (str !! length dashes ≠ Some LF ∧ str !! length dashes = last dashes).
Proof.
  cbv zeta. split; [vm_compute; reflexivity|]. split; [vm_compute; lia|].
  split; [vm_compute; reflexivity|]. split; [vm_compute; reflexivity|].
  intros [H _]. vm_compute in H. by destruct H.
Qed.

(** ** What [matter] returns *)

(** C4.  Whatever [matter] returns, [body] is a suffix of [src], which is
    the text without its byte-order mark, and is not longer.  When lines 20
    to 57 find no block, [matter] returns, [body] is [src] and [data] is
    [null]; so it is for a text without byte-order mark that does not start
    with the header, under options that are valid and accept the assignments
    of [formatOptions]. *)
Theorem matter_result_invariant lower code str opts st :
  (∀ r st', matter lower code str opts st = (inr r, st') ->
     body r `suffix_of` src r ∧ length (body r) ≤ length (src r)
     ∧ ∀ s, str = VStr s -> src r = strip_bom s ∧ src r `suffix_of` s)
  ∧ (∀ s, (matter_detect lower str opts st).1 = inr (NoBlock s) ->
       (matter lower code str opts st).1 = inr (Result s VNull s))
  ∧ (∀ s h, str = VStr s -> head s ≠ Some BOM ->
       opts_writable st opts -> lang_valid st opts -> delims_valid st opts ->
       (opt_pair st opts).1 = VStr h -> startsAt h s = false ->
       (matter lower code str opts st).1 = inr (Result s VNull s)).
Proof.
  split; [|split].
  - intros r st' Hm.
    assert (Hsrc : ∀ s, str = VStr s -> src r = strip_bom s
                        ∧ body r `suffix_of` src r).
    { intros s ->. rewrite matter_unfold in Hm.
      destruct (matter_detect lower (VStr s) opts st) as [[e|f] st1] eqn:Ed;
        [discriminate|].
      apply matter_detect_inv in Ed as (o & h & ft & _ & _ & ->).
      pose proof (search_str (strip_bom s) o (truthy (opt_loose st opts)) h ft) as Hs.
      destruct (search _ _ _ _ _) as [s'|s' o' h' l' ds de bs].
      - injection Hm as <- _. subst s'. done.
      - destruct Hs as (-> & _).
        apply matter_extract_returns in Hm as [Hr1 Hr2]. split; [done|].
        rewrite Hr1, Hr2. apply suffix_drop. }
    destruct str as [| | | |s| | |];
      try (rewrite matter_not_string in Hm by done; discriminate).
    destruct (Hsrc s eq_refl) as [H1 H2].
    split; [exact H2|]. split; [by apply suffix_length|].
    intros s' [= <-]. split; [exact H1|]. rewrite H1.
    destruct s as [|c s]; [done|]. simpl.
    destruct (c =? BOM)%N; [by apply suffix_cons_r | done].
  - intros s Hd. rewrite matter_unfold.
    destruct (matter_detect lower str opts st) as [[e|f] st1]; [discriminate|].
    cbn [fst] in Hd. by injection Hd as ->.
  - intros s h -> Hbom Hwr Hlang Hdel Hh Hstart. rewrite matter_unfold.
    rewrite matter_detect_spec, (strip_bom_id s Hbom).
    pose proof (formatOptions_cases lower opts st) as Hc.
    destruct (formatOptions lower opts st) as [[e|o] st1].
    { destruct Hc as [[_ Hc]|[[_ Hc]|(_ & _ & Hc)]]; done. }
    destruct Hc as (_ & _ & [_ Hf] & (a & Ha & H0 & H1) & Hl).
    destruct (bool_decide (s = [])); [done|].
    rewrite Ha, H0, H1, Hh.
    destruct (opt_pair st opts).2 as [| | | |ft| | |]; try discriminate.
    unfold search.
    destruct (bool_decide (s = [])); [done|].
    by rewrite (matter_locate_no_header _ h ft s Hstart).
Qed.

Lemma matter_result_invariant_witness :
  let st := State {[ 1%positive := {[ p_delims := VStr (js "~~~") ]} ]} ∅ ∅ [] [] in
  let s := js "title" ++ [LF] ++ js "~~~" in
  head s ≠ Some BOM ∧ opts_writable st (Opts 1%positive)
  ∧ lang_valid st (Opts 1%positive) ∧ delims_valid st (Opts 1%positive)
  ∧ (opt_pair st (Opts 1%positive)).1 = VStr (js "~~~")
  ∧ startsAt (js "~~~") s = false
  ∧ (matter ascii_lower echoes (VStr s) (Opts 1%positive) st).1
    = inr (Result s VNull s).
Proof.
  cbv zeta.
  set (st := State {[ 1%positive := {[ p_delims := VStr (js "~~~") ]} ]} ∅ ∅ [] []).
  set (s := js "title" ++ [LF] ++ js "~~~").
  assert (H1 : head s ≠ Some BOM) by (vm_compute; discriminate).
  assert (H0 : opts_writable st (Opts 1%positive))
    by (repeat split; vm_compute; reflexivity).
  assert (H2 : lang_valid st (Opts 1%positive)) by (vm_compute; reflexivity).
  assert (H3 : delims_valid st (Opts 1%positive))
    by (split; vm_compute; reflexivity).
  assert (H4 : (opt_pair st (Opts 1%positive)).1 = VStr (js "~~~"))
    by (vm_compute; reflexivity).
  assert (H5 : startsAt (js "~~~") s = false) by (vm_compute; reflexivity).
  refine (conj H1 (conj H0 (conj H2 (conj H3 (conj H4 (conj H5 _)))))).
  destruct (matter_result_invariant ascii_lower echoes (VStr s) (Opts 1%positive) st)
    as (_ & _ & H).
  exact (H s (js "~~~") eq_refl H1 H0 H2 H3 H4 H5).
Defined.

(** ** A read that fails *)

(** C5, where the code departs from it.  When the read fails, the callback
    gets the error and [null], once; then the function goes on (line 171, no
    [return] after line 169), [matter] is called with [undefined] as text and
    throws, and nobody catches that. *)
Theorem readFile_failure_throws lower code opts realpath e st :
  readFile_done lower code opts realpath (fs_err (ReadFail e)) (fs_content (ReadFail e)) st
  = (inl ErrNotString, log_callback st (VObj e) None).
Proof. reflexivity. Qed.

(** ** Errors in the options *)

Lemma matter_detect_frame lower str opts st out st1 :
  matter_detect lower str opts st = (out, st1) ->
  registry st1 = registry st ∧ calls st1 = calls st
  ∧ delivered st1 = delivered st.
Proof.
  destruct str as [| | | |s| | |]; try (intros [= <- <-]; done).
  rewrite matter_detect_spec.
  destruct (formatOptions lower opts st) as [r st0] eqn:Ef.
  apply formatOptions_frame in Ef.
  destruct r as [e|o]; [by intros [= <- <-]|].
  destruct (bool_decide _); [by intros [= <- <-]|].
  destruct (obj_get st0 o p_delims) as [| | | | | |a|]; try by intros [= <- <-].
  destruct (arr_get st0 a 0) as [| | | |h| | |]; try by intros [= <- <-].
  destruct (arr_get st0 a 1) as [| | | |f| | |]; by intros [= <- <-].
Qed.





(** ** When a parser is called *)

(** C7, as amended.  [matter] calls a parser at most once, and only when a
    block is found with [dataStart < dataEnd]; the parser then gets the
    trimmed text of the region, which may be empty.  With
    [dataStart = dataEnd] the block is found, no parser is called and [data]
    stays [null]. *)
Theorem parser_called_on_nonempty_region lower code str opts st :
  (calls (matter lower code str opts st).2 = calls st
   ∨ ∃ s o h l ds de bs st1,
       matter_detect lower str opts st = (inr (Block s o h l ds de bs), st1)
       ∧ ds < de
       ∧ calls (matter lower code str opts st).2
         = calls st ++ [(metadata s ds de, l)])
  ∧ (∀ s o h l ds de bs st1,
       matter_detect lower str opts st = (inr (Block s o h l ds de bs), st1) ->
       (ds = de ->
        matter lower code str opts st
        = (inr (Result s VNull (substr_from s bs)), st1)
        ∧ calls st1 = calls st)
       ∧ (ds < de -> ∀ lang f,
            language lower st1 o s h ds = VStr lang ->
            chosen st1 (obj_get st1 o p_parsers) lang = VFun f ->
            matter lower code str opts st
            = with_data s (substr_from s bs)
                (call (code f) (metadata s ds de) l st1))).
Proof.
  rewrite matter_unfold.
  destruct (matter_detect lower str opts st) as [[e|f] st1] eqn:Ed;
    pose proof (matter_detect_frame _ _ _ _ _ _ Ed) as (_ & Hcalls & _).
  - split; [by left|]. intros; discriminate.
  - destruct f as [s|s o h l ds de bs].
    { split; [by left|]. intros; discriminate. }
    rewrite matter_extract_spec. split.
    + destruct (Nat.ltb_spec ds de) as [Hlt|_]; [|by left].
      destruct (language _ _ _ _ _ _) as [| | | |lang| | |]; try by left.
      destruct (chosen _ _ _) as [| | | | | | |g]; try by left.
      right. exists s, o, h, l, ds, de, bs, st1.
      split; [done|]. split; [done|]. rewrite with_data_snd.
      rewrite (proj1 (call_calls _ _ _ _)). by rewrite Hcalls.
    + intros s' o' h' l' ds' de' bs' st1' [= <- <- <- <- <- <- <- <-]. split.
      * intros <-. by rewrite Nat.ltb_irrefl.
      * intros Hlt lang g Hlang Hg.
        apply Nat.ltb_lt in Hlt. by rewrite Hlt, Hlang, Hg.
Qed.

Lemma parser_called_on_nonempty_region_witness :
  let str := dashes ++ [LF] ++ dashes ++ [LF] ++ js "body" in
  let st := State ∅ ∅ {[ js "yaml" := VFun echo ]} [] [] in
  (∃ o st1, matter_detect ascii_lower (VStr str) NoOpts st
            = (inr (Block str o dashes false 3 3 8), st1))
  ∧ (matter ascii_lower echoes (VStr str) NoOpts st).1
    = inr (Result str VNull (js "body"))
  ∧ calls (matter ascii_lower echoes (VStr str) NoOpts st).2 = [].
Proof.
  cbv zeta.
  set (str := dashes ++ [LF] ++ dashes ++ [LF] ++ js "body").
  set (st := State ∅ ∅ {[ js "yaml" := VFun echo ]} [] []).
  destruct (matter_detect ascii_lower (VStr str) NoOpts st) as [out st1] eqn:Ed.
  assert (Hout : out = inr (Block str 1%positive dashes false 3 3 8)).
  { change out with (out, st1).1. rewrite <- Ed. vm_compute. reflexivity. }
  subst out. split; [eauto|].
  destruct (parser_called_on_nonempty_region ascii_lower echoes (VStr str) NoOpts st)
    as [_ H].
  destruct (H _ _ _ _ _ _ _ _ Ed) as [H0 _].
  destruct (H0 eq_refl) as [Hm Hc]. rewrite Hm. cbn [fst snd].
  split; [|exact Hc]. vm_compute. reflexivity.
Defined.

(** C7, as stated, fails: between the header and the footer lies one empty
    line, the trimmed text of the region is empty, and the parser is called
    all the same; [data] is what it returns. *)
Lemma parser_called_on_blank_region :
  let str := dashes ++ [LF; LF] ++ dashes in
  let st := State ∅ ∅ {[ js "yaml" := VFun echo ]} [] [] in
  metadata str 3 4 = []
  ∧ (matter ascii_lower echoes (VStr str) NoOpts st).1 = inr (Result str (VStr []) [])
  ∧ calls (matter ascii_lower echoes (VStr str) NoOpts st).2 = [([], false)].
Proof. cbv zeta. repeat split; vm_compute; reflexivity. Qed.

(** ** The byte-order mark *)

Lemma matter_strips_bom lower code s opts st :
  strip_bom s = s ->
  matter lower code (VStr (BOM :: s)) opts st = matter lower code (VStr s) opts st.
Proof.
  intros Hs. rewrite !matter_unfold, !matter_detect_spec.
  change (strip_bom (BOM :: s)) with s. by rewrite Hs.
Qed.

(** C9, where the code departs from it.  [matter] strips the byte-order
    mark (line 20) and behaves on the marked text as on the text itself;
    [matter.test] does not strip it: a text with a block is found by both,
    the same text behind a byte-order mark by [matter] alone. *)
Theorem test_keeps_bom lower code st :
  let s := dashes ++ [LF] ++ dashes in
  (matter_test (VStr s) NoOpts st).1 = inr true
  ∧ (matter_test (VStr (BOM :: s)) NoOpts st).1 = inr false
  ∧ matter lower code (VStr (BOM :: s)) NoOpts st = matter lower code (VStr s) NoOpts st
  ∧ (matter lower code (VStr (BOM :: s)) NoOpts st).1 = inr (Result s VNull []).
Proof.
  cbv zeta. split; [|split; [|split]].
  - rewrite matter_test_open by exact I. reflexivity.
  - rewrite matter_test_open by exact I. reflexivity.
  - by apply matter_strips_bom.
  - rewrite matter_unfold, matter_detect_spec, formatOptions_NoOpts. cbv zeta.
    destruct (default_options_lookup (fresh (dom (arrs st)))) as (L1 & L2 & L3 & L4).
    change (strip_bom (BOM :: dashes ++ [LF] ++ dashes))
      with (dashes ++ [LF] ++ dashes).
    rewrite bool_decide_eq_false_2 by discriminate.
    rewrite !obj_get_obj_write, L1, L3. cbn [from_option id].
    unfold arr_get. change (arrs (obj_write ?s _ _)) with (arrs s).
    rewrite arrs_arr_write_eq. reflexivity.
Qed.

(** ** What [matter] writes *)

Lemma kept_refl st o a : kept st st o a.
Proof. by repeat split. Qed.

Lemma delims_array_caller st delims :
  (caller_array delims = None -> arrs st !! (delims_array st delims).1 = None)
  ∧ (∀ a, caller_array delims = Some a -> a = (delims_array st delims).1).
Proof.
  destruct delims; cbn; split; try done; try (intros _; apply fresh_unused).
  by intros a [= ->].
Qed.

Lemma written_kept o a st st' aa :
  written o a st st' ->
  (aa = None -> arrs st !! a = None) -> (∀ a', aa = Some a' -> a' = a) ->
  kept st st' (Some o) aa.
Proof.
  intros Hw Hnew Hsame.
  apply written_frame in Hw as (H1 & _ & H3 & H4 & H5 & _ & _ & H8 & H9 & _).
  repeat split; try done.
  - intros l Hl _. apply H8. congruence.
  - intros l Hl Hs. apply H9. intros ->.
    destruct aa as [a'|].
    + destruct Hl. f_equal. by apply Hsame.
    + rewrite Hnew in Hs by done. by destruct Hs.
Qed.

Lemma formatOptions_kept lower opts st :
  kept st (formatOptions lower opts st).2
       (caller_object opts) (caller_array (opt_delims st opts)).
Proof.
  destruct opts as [|o|]; [| |apply kept_refl].
  - rewrite formatOptions_NoOpts. cbv zeta. cbn [snd caller_object opt_delims caller_array].
    repeat split; try done.
    + intros l _ Hs. rewrite objs_obj_write.
      rewrite lookup_insert_ne; [done|]. intros <-.
      rewrite fresh_unused in Hs. by destruct Hs.
    + intros l _ Hs. change (arrs (obj_write ?s _ _)) with (arrs s).
      rewrite arrs_arr_write_ne; [done|]. intros <-.
      rewrite fresh_unused in Hs. by destruct Hs.
  - cbn [caller_object opt_delims].
    destruct (delims_array_caller st (obj_get st o p_delims)) as [Hnew Hsame].
    by apply (written_kept o _ st _ _ (formatOptions_written lower o st)).
Qed.

(** After the options are normalised, [matter] writes nothing itself: what
    changes then is changed by the parser it calls. *)
Lemma matter_store lower code str opts st :
  let st' := (matter lower code str opts st).2 in
  let st1 := (formatOptions lower opts st).2 in
  (is_string str = false ∧ st' = st)
  ∨ (is_string str = true
     ∧ (st' = st1 ∨ ∃ f text loose, st' = (call (code f) text loose st1).2)).
Proof.
  cbv zeta. destruct str as [| | | |s| | |]; try (by left). right.
  split; [done|].
  rewrite matter_unfold, matter_detect_spec.
  destruct (formatOptions lower opts st) as [[e|o] st1]; [by left|]. cbn [snd].
  assert (Hex : ∀ f, (match f with
                      | NoBlock s0 => (inr (Result s0 VNull s0), st1)
                      | Block s0 o0 h l ds de bs =>
                          matter_extract lower code s0 o0 h l ds de bs st1
                      end).2 = st1
                     ∨ ∃ g t l, (match f with
                      | NoBlock s0 => (inr (Result s0 VNull s0), st1)
                      | Block s0 o0 h l ds de bs =>
                          matter_extract lower code s0 o0 h l ds de bs st1
                      end).2 = (call (code g) t l st1).2).
  { intros [s0|s0 o0 h l ds de bs]; [by left|]. rewrite matter_extract_spec.
    destruct (ds <? de); [|by left].
    destruct (language _ _ _ _ _ _) as [| | | |lang| | |]; try by left.
    destruct (chosen _ _ _) as [| | | | | | |g]; try by left.
    right. rewrite with_data_snd. eauto. }
  destruct (bool_decide _); [by left|].
  destruct (obj_get st1 o p_delims) as [| | | | | |a|]; try by left.
  destruct (arr_get st1 a 0) as [| | | |h| | |]; try by left.
  destruct (arr_get st1 a 1) as [| | | |ft| | |]; try by left.
  apply Hex.
Qed.

Lemma formatOptions_other_props lower o st k :
  k ∉ [p_lang; p_delims; p_parsers; p_loose] ->
  obj_get (formatOptions lower (Opts o) st).2 o k = obj_get st o k.
Proof.
  intros Hk. pose proof (formatOptions_written lower o st) as Hw.
  apply written_frame in Hw as (_ & _ & _ & _ & _ & _ & _ & _ & _ & H).
  by apply H.
Qed.

Lemma same_store_call code f text loose st :
  pure_code code -> same_store st (call (code f) text loose st).2.
Proof. intros Hp. exact (Hp f text loose st). Qed.

Lemma same_store_kept st st1 st' o a :
  kept st st1 o a -> same_store st1 st' -> delivered st' = delivered st1 ->
  kept st st' o a.
Proof.
  intros (H1 & H2 & H3 & H4 & H5 & H6) (S1 & S2 & S3 & S4 & S5) Hd.
  unfold kept, objs, arrs in *. rewrite S1, S2, S3, S4, S5, Hd. done.
Qed.

(** C10, as amended.  With a text that is no string [matter] throws and
    writes nothing.  Else it normalises the options, and up to there it writes
    neither the registry nor a module variable nor any object or array of
    the caller other than the options object and the array given as
    [opts.delims]; of the options object it writes the properties [lang],
    [delims], [parsers] and [loose] only.  Those it normalises in place: when
    the options accept the assignments and are valid, the object then holds a
    boolean [loose], the lower-cased trimmed [lang], [parsers] or [null], and
    as [delims] the array, which has its header and footer filled in.  After
    that the store is changed only by the parser that [matter] calls, if any;
    with parsers that write nothing it ends as the options were left. *)
Theorem matter_writes lower code str opts st :
  let st' := (matter lower code str opts st).2 in
  let st1 := (formatOptions lower opts st).2 in
  (is_string str = false ->
   matter lower code str opts st = (inl ErrNotString, st))
  ∧ (is_string str = true ->
     st' = st1 ∨ ∃ f text loose, st' = (call (code f) text loose st1).2)
  ∧ kept st st1 (caller_object opts) (caller_array (opt_delims st opts))
  ∧ (∀ o k, opts = Opts o -> k ∉ [p_lang; p_delims; p_parsers; p_loose] ->
       obj_get st1 o k = obj_get st o k)
  ∧ (∀ o lang0, opts = Opts o -> opts_writable st opts ->
       lang_or_default st o = VStr lang0 -> delims_valid st opts ->
       let d := delims_array st (obj_get st o p_delims) in
       obj_get st1 o p_loose = VBool (truthy (obj_get st o p_loose))
       ∧ obj_get st1 o p_lang = VStr (lower (trim lang0))
       ∧ obj_get st1 o p_parsers
         = (if nonnull (obj_get st o p_parsers) then obj_get st o p_parsers
            else VNull)
       ∧ obj_get st1 o p_delims = VArr d.1
       ∧ arrs st1 !! d.1 = Some ((filled d.2).1 :: (filled d.2).2 :: drop 2 d.2))
  ∧ (pure_code code ->
     kept st st' (caller_object opts) (caller_array (opt_delims st opts))
     ∧ (is_string str = true -> same_store st1 st')).
Proof.
  cbv zeta.
  pose proof (matter_store lower code str opts st) as Hst. cbv zeta in Hst.
  pose proof (formatOptions_kept lower opts st) as Hk.
  split; [|split; [|split; [|split; [|split]]]].
  - intros Hs. by apply matter_not_string.
  - intros Hs. destruct Hst as [[Hs' _]|[_ H]]; [congruence | done].
  - exact Hk.
  - intros o k -> Hkey. by apply formatOptions_other_props.
  - intros o lang0 -> Hwr Hlang [Hh Hf].
    rewrite (formatOptions_open _ _ _ Hwr), Hlang. cbv zeta.
    unfold delims_outcome. unfold opt_pair in Hh, Hf. cbn [opt_delims] in Hh, Hf.
    rewrite Hh, Hf. cbn [andb snd].
    destruct (normalized_reads st o lang0 (lower (trim lang0)))
      as (R1 & R2 & R3 & R4 & R5 & R6 & _).
    repeat split; try done.
    unfold normalized. change (arrs (obj_set ?s _ _ _)) with (arrs s).
    change (arrs (obj_set ?s _ _ _)) with (arrs s).
    change (arrs (obj_set ?s _ _ _)) with (arrs s).
    apply arrs_arr_write_eq.
  - intros Hp.
    assert (Hsame : is_string str = true
              -> same_store (formatOptions lower opts st).2
                            (matter lower code str opts st).2
                 ∧ delivered (matter lower code str opts st).2
                   = delivered (formatOptions lower opts st).2).
    { intros Hs. destruct Hst as [[Hs' _]|[_ [->|(f & t & l & ->)]]];
        [congruence | done |].
      split; [by apply same_store_call | apply call_calls]. }
    split; [|intros Hs; by apply Hsame].
    destruct (is_string str) eqn:Hs.
    + destruct (Hsame eq_refl) as [H1 H2]. by apply (same_store_kept _ _ _ _ _ Hk).
    + destruct Hst as [[_ ->]|[Hs' _]]; [apply kept_refl | congruence].
Qed.

Lemma matter_writes_witness :
  let st := State {[ 1%positive := {[ p_delims := VArr 1%positive ]} ]}
                  {[ 1%positive := [VStr (js "~~~")] ]} ∅ [] [] in
  let st1 := (formatOptions ascii_lower (Opts 1%positive) st).2 in
  let st' := (matter ascii_lower echoes (VStr (js "x")) (Opts 1%positive) st).2 in
  opts_writable st (Opts 1%positive)
  ∧ lang_or_default st 1%positive = VStr (js "yaml")
  ∧ delims_valid st (Opts 1%positive)
  ∧ pure_code echoes
  ∧ obj_get st1 1%positive p_loose = VBool false
  ∧ obj_get st1 1%positive p_lang = VStr (js "yaml")
  ∧ obj_get st1 1%positive p_parsers = VNull
  ∧ obj_get st1 1%positive p_delims = VArr 1%positive
  ∧ arrs st1 !! 1%positive = Some [VStr (js "~~~"); VStr (js "~~~")]
  ∧ same_store st1 st'.
Proof.
  cbv zeta.
  set (st := State {[ 1%positive := {[ p_delims := VArr 1%positive ]} ]}
                   {[ 1%positive := [VStr (js "~~~")] ]} ∅ [] []).
  assert (H0 : opts_writable st (Opts 1%positive))
    by (repeat split; vm_compute; reflexivity).
  assert (H1 : lang_or_default st 1%positive = VStr (js "yaml"))
    by (vm_compute; reflexivity).
  assert (H2 : delims_valid st (Opts 1%positive))
    by (split; vm_compute; reflexivity).
  assert (H3 : pure_code echoes) by (intros f text loose s; by repeat split).
  split; [exact H0|]. split; [exact H1|]. split; [exact H2|]. split; [exact H3|].
  destruct (matter_writes ascii_lower echoes (VStr (js "x")) (Opts 1%positive) st)
    as (_ & _ & _ & _ & H & G).
  destruct (H 1%positive (js "yaml") eq_refl H0 H1 H2) as (R1 & R2 & R3 & R4 & R5).
  refine (conj R1 (conj R2 (conj R3 (conj R4 (conj R5 _))))).
  exact (proj2 (G H3) eq_refl).
Defined.

(** C10, as stated, fails: after [matter('x', opts)] with
    [opts = {delims: ['~~~']}] the array holds two strings and the object
    holds a [lang]. *)
Lemma matter_changes_options :
  let st := State {[ 1%positive := {[ p_delims := VArr 1%positive ]} ]}
                  {[ 1%positive := [VStr (js "~~~")] ]} ∅ [] [] in
  let st' := (matter ascii_lower echoes (VStr (js "x")) (Opts 1%positive) st).2 in
  arrs st !! 1%positive = Some [VStr (js "~~~")]
  ∧ arrs st' !! 1%positive = Some [VStr (js "~~~"); VStr (js "~~~")]
  ∧ obj_get st 1%positive p_lang = VUndefined
  ∧ obj_get st' 1%positive p_lang = VStr (js "yaml")
  ∧ objs st' !! 1%positive ≠ objs st !! 1%positive
  ∧ arrs st' !! 1%positive ≠ arrs st !! 1%positive.
Proof.
  cbv zeta. repeat split; try (vm_compute; reflexivity).
  - intros H.
    apply (f_equal (λ props, default VUndefined (props ≫= (.!! p_lang)))) in H.
    vm_compute in H. discriminate H.
  - intros H. vm_compute in H. discriminate H.
Qed.

(** ** Searching a text that was put together *)

Lemma startsAt_length needle s : startsAt needle s = true -> length needle ≤ length s.
Proof.
  unfold startsAt. rewrite bool_decide_eq_true. intros H.
  rewrite <- H at 1. rewrite length_take. lia.
Qed.

Lemma startsAt_app needle s t :
  length needle ≤ length s -> startsAt needle (s ++ t) = startsAt needle s.
Proof. intros H. unfold startsAt. by rewrite take_app_le. Qed.

Lemma indexOf_at_length rest needle k r :
  indexOf_at rest needle k = Some r -> length needle ≤ length rest.
Proof.
  revert k. induction rest as [|c rest IH]; intros k; simpl.
  - destruct (startsAt needle []) eqn:E; [|discriminate].
    intros _. by apply startsAt_length in E.
  - destruct (startsAt needle (c :: rest)) eqn:E.
    + intros _. by apply startsAt_length in E.
    + intros H. apply IH in H. simpl. lia.
Qed.

Lemma indexOf_at_app s t needle k r :
  indexOf_at s needle k = Some r -> indexOf_at (s ++ t) needle k = Some r.
Proof.
  revert k. induction s as [|c s IH]; intros k H.
  - pose proof (indexOf_at_length _ _ _ _ H) as Hl. simpl in H.
    destruct needle; [|simpl in Hl; lia].
    injection H as <-. by destruct t.
  - pose proof (indexOf_at_length _ _ _ _ H) as Hl.
    cbn [indexOf_at app] in H |- *.
    change (c :: s ++ t) with ((c :: s) ++ t).
    rewrite (startsAt_app needle (c :: s) t Hl).
    destruct (startsAt needle (c :: s)); [done|]. cbn [app]. by apply IH.
Qed.

Lemma indexOf_at_shift rest needle k :
  indexOf_at rest needle k = (λ n, k + n) <$> indexOf_at rest needle 0.
Proof.
  revert k. induction rest as [|c rest IH]; intros k; simpl.
  - destruct (startsAt needle []); cbn; [f_equal; lia | done].
  - destruct (startsAt needle (c :: rest)); cbn; [f_equal; lia|].
    rewrite (IH (S k)), (IH 1). destruct (indexOf_at rest needle 0); cbn; [|done].
    f_equal; lia.
Qed.

Lemma indexOf_after pre rest needle :
  indexOf (pre ++ rest) needle (length pre)
  = (λ n, length pre + n) <$> indexOf_at rest needle 0.
Proof.
  unfold indexOf. rewrite length_app.
  replace (length pre `min` (length pre + length rest)) with (length pre) by lia.
  rewrite drop_app_length. apply indexOf_at_shift.
Qed.

Lemma indexOf_at_here c s k : indexOf_at (c :: s) [c] k = Some k.
Proof.
  cbn [indexOf_at]. unfold startsAt. cbn [length take]. rewrite take_0.
  by rewrite bool_decide_eq_true_2.
Qed.

Lemma trim_newline m : trim (LF :: m) = trim m.
Proof. reflexivity. Qed.

(** ** Round trip *)

Lemma locate_round_trip loose header footer m b :
  indexOf (LF :: m ++ LF :: footer) (LF :: footer) 0 = Some (S (length m)) ->
  let str := header ++ LF :: m ++ LF :: footer ++ LF :: b in
  matter_locate loose header footer str
  = Present (length header) (length header + S (length m))
            (length header + S (length m) + 1 + length footer + 1)
  ∧ substr_from str (length header + S (length m) + 1 + length footer + 1) = b
  ∧ metadata str (length header) (length header + S (length m)) = trim m.
Proof.
  intros Hfirst str.
  set (ds := length header). set (de := length header + S (length m)).
  set (p := de + 1 + length footer).
  assert (Hrest : str = header ++ (LF :: m ++ LF :: footer) ++ LF :: b).
  { unfold str. cbn [app]. by rewrite <- !app_assoc. }
  assert (Hp : drop p str = LF :: b).
  { rewrite Hrest, app_assoc. unfold p, de.
    replace (length header + S (length m) + 1 + length footer)
      with (length (header ++ LF :: m ++ LF :: footer))
      by (rewrite !length_app; cbn [length]; rewrite length_app; cbn [length]; lia).
    apply drop_app_length. }
  assert (Hat : str !! p = Some LF).
  { rewrite <- (Nat.add_0_r p), <- lookup_drop, Hp. done. }
  assert (Hlen : p < length str) by (by apply lookup_lt_Some in Hat).
  assert (Hr : reaches_footer (negb loose) header footer str ds de).
  { split; [|split; [|split]].
    - unfold substr. rewrite drop_0. unfold str. by rewrite take_app_length.
    - intros _ _ [Hnl _]. apply Hnl. unfold str.
      by rewrite list_lookup_middle.
    - rewrite Hrest, indexOf_after. cbn [app]. rewrite indexOf_at_here.
      cbn. unfold ds. f_equal. lia.
    - rewrite Hrest. unfold ds. rewrite indexOf_after.
      unfold indexOf in Hfirst. cbn [min drop] in Hfirst.
      rewrite (indexOf_at_app _ (LF :: b) _ _ _ Hfirst). done. }
  destruct (locate_reached _ _ _ _ _ _ Hr) as [Hm _]. fold p in Hm.
  rewrite negb_involutive in Hm.
  apply Nat.ltb_lt in Hlen. rewrite Hlen, Hat in Hm.
  rewrite bool_decide_eq_true_2 in Hm by done. cbn [negb andb] in Hm.
  unfold substr_from in Hm. rewrite Hp in Hm.
  assert (Hscan : (if negb loose && true then matter_scan (LF :: b) p else Some p)
                  = Some p) by (by destruct loose).
  rewrite Hscan in Hm. rewrite Hat in Hm.
  rewrite bool_decide_eq_true_2 in Hm by done.
  assert (Hsp : ds + S (length m) + 1 + length footer + 1 = S p)
    by (unfold p, de, ds; lia).
  rewrite Hsp.
  split; [exact Hm|]. split.
  - unfold substr_from. replace (S p) with (p + 1) by lia.
    rewrite <- (drop_drop str 1 p), Hp. done.
  - unfold metadata, substr. unfold de, ds.
    replace (length header + S (length m) - length header) with (S (length m)) by lia.
    unfold str. rewrite drop_app_length.
    change (LF :: m ++ LF :: footer ++ LF :: b)
      with ((LF :: m) ++ LF :: footer ++ LF :: b).
    change (S (length m)) with (length (LF :: m)).
    rewrite take_app_length. apply trim_newline.
Qed.

(** C8, as amended.  Let the first newline-plus-footer of
    newline + [m] + newline + footer be the closing one, and let the header
    not begin with a byte-order mark.  Then [matter] on
    header + newline + [m] + newline + footer + newline + [b] calls the parser
    chosen for the default language on the trimmed [m], returns its value as
    [data] (or throws what it throws), and returns [b] as [body]. *)
Theorem round_trip lower code opts st o st1 header footer lang f m b :
  lower [] = [] ->
  formatOptions lower opts st = (inr o, st1) ->
  opt_pair st opts = (VStr header, VStr footer) ->
  head header ≠ Some BOM ->
  indexOf (LF :: m ++ LF :: footer) (LF :: footer) 0 = Some (S (length m)) ->
  obj_get st1 o p_lang = VStr lang ->
  chosen st1 (obj_get st1 o p_parsers) lang = VFun f ->
  let str := header ++ LF :: m ++ LF :: footer ++ LF :: b in
  let loose := truthy (opt_loose st opts) in
  matter lower code (VStr str) opts st
  = with_data str b (call (code f) (trim m) loose st1).
Proof.
  intros Hlow Hfo Hpair Hbom Hfirst Hlang Hf str loose.
  destruct (locate_round_trip loose header footer m b Hfirst) as (Hloc & Hbody & Hmeta).
  fold str in Hloc, Hbody, Hmeta.
  assert (Hstrip : strip_bom str = str).
  { apply strip_bom_id. unfold str. destruct header; [discriminate | done]. }
  assert (Hne : str ≠ []) by (unfold str; by destruct header).
  rewrite matter_unfold, matter_detect_spec, Hfo, Hstrip.
  rewrite bool_decide_eq_false_2 by done.
  pose proof (formatOptions_cases lower opts st) as Hc. rewrite Hfo in Hc.
  destruct Hc as (_ & _ & _ & (a & Ha & H0 & H1) & Hl).
  rewrite Hpair in H0, H1. cbn [fst snd] in H0, H1.
  rewrite Ha, H0, H1, Hl. cbn [truthy]. fold loose.
  unfold search. rewrite bool_decide_eq_false_2 by done. rewrite Hloc.
  rewrite matter_extract_spec.
  assert (Hlt : (length header <? length header + S (length m)) = true)
    by (apply Nat.ltb_lt; lia).
  rewrite Hlt, Hmeta, Hbody.
  assert (Hl' : language lower st1 o str header (length header) = VStr lang).
  { unfold language, substr. rewrite Nat.sub_diag, take_0.
    change (trim []) with (@nil N). rewrite Hlow.
    by rewrite bool_decide_eq_true_2. }
  by rewrite Hl', Hf.
Qed.

Lemma round_trip_witness :
  let st := State ∅ ∅ {[ js "yaml" := VFun echo ]} [] [] in
  let st1 := (formatOptions ascii_lower NoOpts st).2 in
  let m := js "foo: bar " in
  let str := dashes ++ LF :: m ++ LF :: dashes ++ LF :: js "baz" in
  ascii_lower [] = []
  ∧ formatOptions ascii_lower NoOpts st = (inr 1%positive, st1)
  ∧ opt_pair st NoOpts = (VStr dashes, VStr dashes)
  ∧ head dashes ≠ Some BOM
  ∧ indexOf (LF :: m ++ LF :: dashes) (LF :: dashes) 0 = Some (S (length m))
  ∧ obj_get st1 1%positive p_lang = VStr (js "yaml")
  ∧ chosen st1 (obj_get st1 1%positive p_parsers) (js "yaml") = VFun echo
  ∧ (matter ascii_lower echoes (VStr str) NoOpts st).1
    = inr (Result str (VStr (js "foo: bar")) (js "baz"))
  ∧ calls (matter ascii_lower echoes (VStr str) NoOpts st).2
    = [(js "foo: bar", false)].
Proof.
  cbv zeta.
  set (st := State ∅ ∅ {[ js "yaml" := VFun echo ]} [] []).
  set (st1 := (formatOptions ascii_lower NoOpts st).2).
  set (m := js "foo: bar ").
  assert (H1 : ascii_lower [] = []) by reflexivity.
  assert (H2 : formatOptions ascii_lower NoOpts st = (inr 1%positive, st1))
    by (vm_compute; reflexivity).
  assert (H3 : opt_pair st NoOpts = (VStr dashes, VStr dashes)) by reflexivity.
  assert (H4 : head dashes ≠ Some BOM) by (vm_compute; discriminate).
  assert (H5 : indexOf (LF :: m ++ LF :: dashes) (LF :: dashes) 0
               = Some (S (length m))) by (vm_compute; reflexivity).
  assert (H6 : obj_get st1 1%positive p_lang = VStr (js "yaml"))
    by (vm_compute; reflexivity).
  assert (H7 : chosen st1 (obj_get st1 1%positive p_parsers) (js "yaml")
               = VFun echo) by (vm_compute; reflexivity).
  refine (conj H1 (conj H2 (conj H3 (conj H4 (conj H5 (conj H6 (conj H7 _))))))).
  rewrite (round_trip ascii_lower echoes NoOpts st 1%positive st1 dashes dashes
             (js "yaml") echo m (js "baz") H1 H2 H3 H4 H5 H6 H7).
  split; vm_compute; reflexivity.
Defined.

(** C8, as stated, fails twice.  A metadata text with a space in front is
    trimmed before it is parsed: a parser that returns its text returns it
    without the space.  And a metadata text that begins with the footer,
    which holds no newline followed by the footer, ends the block at once:
    [data] stays [null] and the body is the metadata and all that follows. *)
Lemma round_trip_fails :
  let st := State ∅ ∅ {[ js "yaml" := VFun echo ]} [] [] in
  let m1 := js " x" in
  let m2 := dashes ++ LF :: js "a: 1" in
  (echoes echo m1 false st).1 = Returns (VStr m1)
  ∧ (matter ascii_lower echoes
       (VStr (dashes ++ LF :: m1 ++ LF :: dashes ++ LF :: js "b")) NoOpts st).1
    = inr (Result (dashes ++ LF :: m1 ++ LF :: dashes ++ LF :: js "b")
                  (VStr (js "x")) (js "b"))
  ∧ VStr (js "x") ≠ VStr m1
  ∧ indexOf m2 (LF :: dashes) 0 = None
  ∧ (matter ascii_lower echoes
       (VStr (dashes ++ LF :: m2 ++ LF :: dashes ++ LF :: js "b")) NoOpts st).1
    = inr (Result (dashes ++ LF :: m2 ++ LF :: dashes ++ LF :: js "b")
                  VNull (js "a: 1" ++ LF :: dashes ++ LF :: js "b")).
Proof.
  cbv zeta. split; [reflexivity|]. split; [vm_compute; reflexivity|].
  split; [intros H; vm_compute in H; discriminate H|].
  split; vm_compute; reflexivity.
Qed.

(** * Further properties of the program *)

(** ** Where a block lies *)

Lemma indexOf_at_sound rest needle k r :
  indexOf_at rest needle k = Some r ->
  k ≤ r ∧ r - k ≤ length rest
  ∧ startsAt needle (drop (r - k) rest) = true
  ∧ (∀ i, i < r - k -> startsAt needle (drop i rest) = false).
Proof.
  revert k. induction rest as [|c rest IH]; intros k; cbn [indexOf_at].
  - destruct (startsAt needle []) eqn:E; [|discriminate].
    intros [= <-]. rewrite Nat.sub_diag.
    split; [lia|]. split; [cbn; lia|]. split; [done|]. lia.
  - destruct (startsAt needle (c :: rest)) eqn:E.
    + intros [= <-]. rewrite Nat.sub_diag.
      split; [lia|]. split; [cbn; lia|]. split; [done|]. lia.
    + intros H. apply IH in H as (H1 & H0 & H2 & H3).
      split; [lia|]. split; [cbn; lia|].
      replace (r - k) with (S (r - S k)) by lia.
      split; [done|]. intros [|i] Hi; [done|]. cbn [drop]. apply H3. lia.
Qed.

Lemma indexOf_sound s needle pos r :
  indexOf s needle pos = Some r ->
  pos `min` length s ≤ r ∧ r + length needle ≤ length s
  ∧ take (length needle) (drop r s) = needle
  ∧ (∀ i, pos `min` length s ≤ i -> i < r ->
       take (length needle) (drop i s) ≠ needle).
Proof.
  unfold indexOf. set (p := pos `min` length s). intros H.
  apply indexOf_at_sound in H as (H1 & H0 & H2 & H3).
  rewrite length_drop in H0.
  assert (Hd : ∀ i, p ≤ i -> drop (i - p) (drop p s) = drop i s).
  { intros i Hi. rewrite drop_drop. f_equal. lia. }
  rewrite (Hd r H1) in H2.
  pose proof (startsAt_length _ _ H2) as Hl. rewrite length_drop in Hl.
  unfold startsAt in H2. apply bool_decide_eq_true in H2.
  split; [done|]. split; [unfold p in *; lia|].
  split; [done|]. intros i Hi Hlt Heq.
  specialize (H3 (i - p)). rewrite (Hd i Hi) in H3.
  unfold startsAt in H3. rewrite bool_decide_eq_true_2 in H3 by done.
  discriminate H3. lia.
Qed.

Lemma matter_scan_bounds rest b b' :
  matter_scan rest b = Some b' -> b ≤ b' ∧ b' ≤ b + length rest.
Proof.
  revert b. induction rest as [|c rest IH]; intros b; simpl.
  - intros [= <-]. lia.
  - destruct (c =? LF)%N; [intros [= <-]; lia|].
    destruct (isWhiteSpace c); [|discriminate]. cbn [negb].
    intros H. apply IH in H. lia.
Qed.

Lemma starts_with_newline needle s r :
  take (length (LF :: needle)) (drop r s) = LF :: needle -> s !! r = Some LF.
Proof.
  intros H. rewrite <- (Nat.add_0_r r), <- lookup_drop.
  destruct (drop r s) as [|c t]; [discriminate|].
  cbn in H. by injection H as -> _.
Qed.

Lemma block_inside loose header footer str ds de bs :
  matter_locate loose header footer str = Present ds de bs ->
  take (length header) str = header
  ∧ length header ≤ ds ∧ ds ≤ de
  ∧ str !! ds = Some LF
  ∧ (∀ i, length header ≤ i -> i < ds -> str !! i ≠ Some LF)
  ∧ str !! de = Some LF
  ∧ take (length footer) (drop (S de) str) = footer
  ∧ (∀ i, ds ≤ i -> i < de ->
       take (S (length footer)) (drop i str) ≠ LF :: footer)
  ∧ de + 1 + length footer ≤ bs ∧ bs ≤ length str.
Proof.
  unfold matter_locate.
  destruct (bool_decide_reflect (substr str 0 (length header) = header))
    as [Hh|]; [|discriminate].
  cbn [negb orb]. destruct (negb loose && _ && _ && _); [discriminate|].
  destruct (indexOf str [LF] (length header)) as [ds'|] eqn:Eds; [|discriminate].
  destruct (indexOf str (LF :: footer) ds') as [de'|] eqn:Ede; [|discriminate].
  cbv zeta.
  unfold substr in Hh. rewrite drop_0 in Hh.
  assert (Hlen : length header ≤ length str).
  { rewrite <- Hh at 1. rewrite length_take. lia. }
  apply indexOf_sound in Eds as (D1 & D2 & D3 & D4).
  apply indexOf_sound in Ede as (E1 & E2 & E3 & E4).
  cbn [length] in D2, E2.
  replace (length header `min` length str) with (length header) in * by lia.
  replace (ds' `min` length str) with ds' in * by lia.
  set (p := de' + 1 + length footer) in *.
  assert (Hp : p ≤ length str) by (unfold p; lia).
  destruct (_ : option nat) as [b|] eqn:Escan; [|discriminate].
  intros [= <- <- <-].
  assert (Hb : p ≤ b ∧ b ≤ length str).
  { destruct (negb loose && (p <? length str)).
    - destruct (negb _ && _); [discriminate|].
      apply matter_scan_bounds in Escan. unfold substr_from in Escan.
      rewrite length_drop in Escan. lia.
    - injection Escan as <-. lia. }
  assert (Hbs : p ≤ (if bool_decide (str !! b = Some LF) then S b else b)
                ∧ (if bool_decide (str !! b = Some LF) then S b else b)
                  ≤ length str).
  { destruct (bool_decide_reflect (str !! b = Some LF)) as [Hlf|_]; [|lia].
    apply lookup_lt_Some in Hlf. lia. }
  split; [done|]. split; [done|]. split; [done|].
  split; [by apply (starts_with_newline [])|].
  split.
  { intros i Hi Hlt Hlf. apply (D4 i Hi Hlt).
    rewrite <- (Nat.add_0_r i), <- lookup_drop in Hlf.
    destruct (drop i str) as [|c t]; [discriminate|].
    cbn in Hlf. injection Hlf as ->. cbn. by rewrite take_0. }
  split; [by apply (starts_with_newline footer)|].
  split.
  { pose proof (starts_with_newline footer _ _ E3) as Hlf.
    rewrite (drop_S _ _ _ Hlf) in E3. cbn in E3. by injection E3. }
  split; [exact E4|]. exact Hbs.
Qed.

(** X1: a block that is found lies inside the text.  The text starts with
    the header; [dataStart] is the first newline from the end of the header
    on; [dataEnd] is not before it and is the first place from there where a
    newline and the footer stand; the body starts behind the footer and not
    past the end of the text. *)
Theorem located_block_inside loose header footer str ds de bs :
  matter_locate loose header footer str = Present ds de bs ->
  take (length header) str = header
  ∧ length header ≤ ds ∧ ds ≤ de
  ∧ str !! ds = Some LF
  ∧ (∀ i, length header ≤ i -> i < ds -> str !! i ≠ Some LF)
  ∧ str !! de = Some LF
  ∧ take (length footer) (drop (S de) str) = footer
  ∧ (∀ i, ds ≤ i -> i < de ->
       take (S (length footer)) (drop i str) ≠ LF :: footer)
  ∧ de + 1 + length footer ≤ bs ∧ bs ≤ length str.
Proof. apply block_inside. Qed.

Lemma located_block_inside_witness :
  let str := dashes ++ [LF] ++ js "foo: bar" ++ [LF] ++ dashes ++ [LF; LF] ++ js "baz" in
  matter_locate false dashes dashes str = Present 3 12 17
  ∧ str !! 3 = Some LF ∧ str !! 12 = Some LF
  ∧ take (length dashes) (drop 13 str) = dashes ∧ 17 ≤ length str.
Proof.
  cbv zeta.
  set (str := dashes ++ [LF] ++ js "foo: bar" ++ [LF] ++ dashes ++ [LF; LF] ++ js "baz").
  assert (H : matter_locate false dashes dashes str = Present 3 12 17)
    by (vm_compute; reflexivity).
  destruct (located_block_inside false dashes dashes str 3 12 17 H)
    as (_ & _ & _ & H1 & _ & H2 & H3 & _ & _ & H4).
  exact (conj H (conj H1 (conj H2 (conj H3 H4)))).
Defined.

(** ** Strict and loose *)

(** X2: what strict mode accepts, loose mode accepts, with the same metadata
    region and a body that starts no later. *)
Theorem strict_block_is_loose_block header footer str ds de bs :
  matter_locate false header footer str = Present ds de bs ->
  test_locate true header footer str = true
  ∧ test_locate false header footer str = true
  ∧ ∃ bs', matter_locate true header footer str = Present ds de bs'
           ∧ bs' ≤ bs.
Proof.
  intros H.
  assert (Ht : test_locate true header footer str = true).
  { apply test_locate_matter_locate. cbn [negb]. by rewrite H. }
  split; [exact Ht|].
  assert (Hl : ∃ bs', matter_locate true header footer str = Present ds de bs'
                      ∧ bs' ≤ bs).
  { revert H. unfold matter_locate. cbn [negb andb].
    destruct (negb (bool_decide _)); [discriminate|]. cbn [orb].
    destruct ((length header <? length str) && _ && _); [discriminate|].
    destruct (indexOf str [LF] (length header)) as [ds'|]; [|discriminate].
    destruct (indexOf str (LF :: footer) ds') as [de'|]; [|discriminate].
    cbv zeta. set (p := de' + 1 + length footer).
    destruct (_ : option nat) as [b|] eqn:Escan; [|discriminate].
    intros [= <- <- <-]. eexists. split; [reflexivity|].
    assert (Hb : p ≤ b).
    { destruct (p <? length str); [|injection Escan as <-; lia].
      destruct (negb _ && _); [discriminate|].
      apply matter_scan_bounds in Escan. lia. }
    destruct (bool_decide_reflect (str !! p = Some LF)) as [Hp|Hp].
    - destruct (decide (b = p)) as [->|Hne].
      + by rewrite bool_decide_eq_true_2.
      + destruct (bool_decide (str !! b = Some LF)); lia.
    - destruct (bool_decide (str !! b = Some LF)); lia. }
  split; [|exact Hl].
  destruct Hl as (bs' & Hl & _).
  apply test_locate_matter_locate. cbn [negb]. by rewrite Hl.
Qed.

Lemma strict_block_is_loose_block_witness :
  let str := dashes ++ [LF] ++ js "a" ++ [LF] ++ dashes ++ [32%N; LF] ++ js "b" in
  matter_locate false dashes dashes str = Present 3 5 11
  ∧ matter_locate true dashes dashes str = Present 3 5 9
  ∧ test_locate false dashes dashes str = true.
Proof.
  cbv zeta.
  set (str := dashes ++ [LF] ++ js "a" ++ [LF] ++ dashes ++ [32%N; LF] ++ js "b").
  assert (H : matter_locate false dashes dashes str = Present 3 5 11)
    by (vm_compute; reflexivity).
  destruct (strict_block_is_loose_block dashes dashes str 3 5 11 H)
    as (_ & H2 & _).
  split; [exact H|]. split; [vm_compute; reflexivity | exact H2].
Defined.

(** ** The body tells whether a block was found *)

Lemma search_inv s o l h ft s' o' h' l' ds de bs :
  search s o l h ft = Block s' o' h' l' ds de bs ->
  s' = s ∧ s ≠ [] ∧ matter_locate l h ft s = Present ds de bs.
Proof.
  unfold search. destruct (bool_decide_reflect (s = [])); [discriminate|].
  destruct (matter_locate l h ft s); [discriminate|].
  by intros [= <- _ _ _ <- <- <-].
Qed.

(** X3: in what [matter] returns, [body] is [src] exactly when no block was
    found; when one was found, [body] is shorter than [src]. *)
Theorem body_tells_block lower code str opts st r st' :
  matter lower code str opts st = (inr r, st') ->
  (body r = src r <-> ∃ s, (matter_detect lower str opts st).1 = inr (NoBlock s))
  ∧ ((∃ s o h l ds de bs,
        (matter_detect lower str opts st).1 = inr (Block s o h l ds de bs))
     <-> length (body r) < length (src r)).
Proof.
  intros Hm.
  destruct str as [| | | |s| | |];
    try (rewrite matter_not_string in Hm by done; discriminate).
  rewrite matter_unfold in Hm.
  destruct (matter_detect lower (VStr s) opts st) as [[e|f] st1] eqn:Ed;
    [discriminate|].
  pose proof (matter_detect_inv _ _ _ _ _ _ Ed) as (o & h & ft & _ & _ & Hs).
  cbn [fst]. destruct f as [s0|s0 o0 h0 l0 ds de bs].
  - injection Hm as <- _. cbn [body src]. split.
    + split; eauto.
    + split; [intros (?&?&?&?&?&?&?&?); discriminate | lia].
  - symmetry in Hs. apply search_inv in Hs as (-> & Hne & Hloc).
    apply block_inside in Hloc as (_ & _ & _ & _ & _ & _ & _ & _ & B1 & B2).
    apply matter_extract_returns in Hm as [-> ->]. unfold substr_from.
    assert (Hlt : length (drop bs (strip_bom s)) < length (strip_bom s)).
    { rewrite length_drop. destruct (strip_bom s); [done|]. cbn in *. lia. }
    split.
    + split; [|intros [? ?]; discriminate].
      intros Heq. rewrite Heq in Hlt. lia.
    + split; [done|]. intros _. eauto 10.
Qed.

Lemma body_tells_block_witness :
  let st := State ∅ ∅ {[ js "yaml" := VFun echo ]} [] [] in
  let str := dashes ++ [LF] ++ js "a: 1" ++ [LF] ++ dashes in
  ∃ r st', matter ascii_lower echoes (VStr str) NoOpts st = (inr r, st')
           ∧ length (body r) < length (src r).
Proof.
  cbv zeta.
  set (st := State ∅ ∅ {[ js "yaml" := VFun echo ]} [] []).
  set (str := dashes ++ [LF] ++ js "a: 1" ++ [LF] ++ dashes).
  destruct (matter ascii_lower echoes (VStr str) NoOpts st) as [out st'] eqn:Em.
  assert (Hout : out = inr (Result str (VStr (js "a: 1")) [])).
  { change out with (out, st').1. rewrite <- Em. vm_compute. reflexivity. }
  subst out. eexists _, st'. split; [reflexivity|].
  destruct (body_tells_block ascii_lower echoes (VStr str) NoOpts st _ _ Em) as [_ H].
  apply H. exists str, 1%positive, dashes, false, 3, 8, 12.
  vm_compute. reflexivity.
Defined.

(** ** The language behind the header *)

Lemma indexOf_at_skip tag rest k :
  LF ∉ tag -> indexOf_at (tag ++ LF :: rest) [LF] k = Some (k + length tag).
Proof.
  revert k. induction tag as [|c tag IH]; intros k Hnl.
  - cbn [app length]. rewrite indexOf_at_here. f_equal. lia.
  - apply not_elem_of_cons in Hnl as [Hc Hnl].
    cbn [app indexOf_at]. unfold startsAt. cbn [length take]. rewrite take_0.
    rewrite bool_decide_eq_false_2 by congruence.
    rewrite IH by done. f_equal. cbn [length]. lia.
Qed.

Lemma locate_tagged loose header footer tag m b :
  LF ∉ tag ->
  loose = true ∨ tag = [] ∨ head tag ≠ last header ->
  indexOf (LF :: m ++ LF :: footer) (LF :: footer) 0 = Some (S (length m)) ->
  let str := header ++ tag ++ LF :: m ++ LF :: footer ++ LF :: b in
  let ds := length header + length tag in
  matter_locate loose header footer str
  = Present ds (ds + S (length m)) (ds + S (length m) + 1 + length footer + 1)
  ∧ substr_from str (ds + S (length m) + 1 + length footer + 1) = b
  ∧ metadata str ds (ds + S (length m)) = trim m
  ∧ substr str (length header) (ds - length header) = tag.
Proof.
  intros Htag Hguard Hfirst str ds.
  set (de := ds + S (length m)). set (p := de + 1 + length footer).
  assert (Hrest : str = (header ++ tag) ++ (LF :: m ++ LF :: footer) ++ LF :: b).
  { unfold str. cbn [app]. by rewrite <- !app_assoc. }
  assert (Hds : length (header ++ tag) = ds) by apply length_app.
  assert (Hp : drop p str = LF :: b).
  { rewrite Hrest, app_assoc. unfold p, de.
    replace (ds + S (length m) + 1 + length footer)
      with (length ((header ++ tag) ++ LF :: m ++ LF :: footer))
      by (rewrite length_app, Hds; cbn [length]; rewrite length_app;
          cbn [length]; lia).
    apply drop_app_length. }
  assert (Hat : str !! p = Some LF).
  { rewrite <- (Nat.add_0_r p), <- lookup_drop, Hp. done. }
  assert (Hlen : p < length str) by (by apply lookup_lt_Some in Hat).
  assert (Hr : reaches_footer (negb loose) header footer str ds de).
  { split; [|split; [|split]].
    - unfold substr. rewrite drop_0. unfold str. by rewrite take_app_length.
    - intros Hstrict _ [Hnl Hlast].
      assert (Hhd : str !! length header = head (tag ++ [LF])).
      { unfold str. rewrite lookup_app_r by lia. rewrite Nat.sub_diag.
        by destruct tag. }
      destruct Hguard as [->|[->|Hg]]; [discriminate | by apply Hnl |].
      destruct tag as [|c tag]; [by apply Hnl|].
      apply Hg. by rewrite <- Hlast, Hhd.
    - unfold str. rewrite indexOf_after, indexOf_at_skip by done.
      cbn. done.
    - rewrite Hrest, <- Hds, indexOf_after.
      unfold indexOf in Hfirst. cbn [min drop] in Hfirst.
      rewrite (indexOf_at_app _ (LF :: b) _ _ _ Hfirst). cbn. unfold de.
      f_equal. lia. }
  destruct (locate_reached _ _ _ _ _ _ Hr) as [Hm _]. fold p in Hm.
  rewrite negb_involutive in Hm.
  apply Nat.ltb_lt in Hlen. rewrite Hlen, Hat in Hm.
  rewrite bool_decide_eq_true_2 in Hm by done. cbn [negb andb] in Hm.
  unfold substr_from in Hm. rewrite Hp in Hm.
  assert (Hscan : (if negb loose && true then matter_scan (LF :: b) p else Some p)
                  = Some p) by (by destruct loose).
  rewrite Hscan in Hm. rewrite Hat in Hm.
  rewrite bool_decide_eq_true_2 in Hm by done.
  replace (p + 1) with (S p) by lia. split; [exact Hm|]. split; [|split].
  - unfold substr_from. replace (S p) with (p + 1) by lia.
    rewrite <- (drop_drop str 1 p), Hp. done.
  - unfold metadata, substr. unfold de.
    replace (ds + S (length m) - ds) with (S (length m)) by lia.
    rewrite Hrest, <- Hds, drop_app_length.
    cbn [app]. rewrite <- app_assoc.
    change (LF :: m ++ (LF :: footer) ++ LF :: b)
      with ((LF :: m) ++ (LF :: footer) ++ LF :: b).
    change (S (length m)) with (length (LF :: m)).
    rewrite take_app_length. apply trim_newline.
  - unfold substr, ds. replace (length header + length tag - length header)
      with (length tag) by lia.
    unfold str. rewrite drop_app_length. by rewrite take_app_length.
Qed.

(** X4: a language named behind the header chooses the parser, whatever
    [opts.lang] is.  Let [tag] hold no newline and name a language once
    trimmed and lower-cased, let it not start with the header's last
    character in strict mode, let the first newline-plus-footer of
    newline + [m] + newline + footer be the closing one, and let the text not
    begin with a byte-order mark (which [matter] would strip: a header that
    begins with one is not found).  Then [matter] on
    header + [tag] + newline + [m] + newline + footer + newline + [b] calls
    the parser chosen for that language on the trimmed [m] and returns [b]
    as body. *)
Theorem language_behind_header lower code opts st o st1 header footer tag lang f m b :
  formatOptions lower opts st = (inr o, st1) ->
  opt_pair st opts = (VStr header, VStr footer) ->
  head (header ++ tag ++ [LF]) ≠ Some BOM ->
  LF ∉ tag ->
  truthy (opt_loose st opts) = true ∨ tag = [] ∨ head tag ≠ last header ->
  indexOf (LF :: m ++ LF :: footer) (LF :: footer) 0 = Some (S (length m)) ->
  lower (trim tag) = lang -> lang ≠ [] ->
  chosen st1 (obj_get st1 o p_parsers) lang = VFun f ->
  let str := header ++ tag ++ LF :: m ++ LF :: footer ++ LF :: b in
  let loose := truthy (opt_loose st opts) in
  matter lower code (VStr str) opts st
  = with_data str b (call (code f) (trim m) loose st1).
Proof.
  intros Hfo Hpair Hbom Htag Hguard Hfirst Hlang Hne Hf str loose.
  destruct (locate_tagged loose header footer tag m b Htag Hguard Hfirst)
    as (Hloc & Hbody & Hmeta & Htagsub).
  fold str in Hloc, Hbody, Hmeta, Htagsub.
  assert (Hstrip : strip_bom str = str).
  { apply strip_bom_id. unfold str.
    destruct header; [destruct tag|]; done. }
  assert (Hne' : str ≠ []).
  { unfold str. destruct header; [destruct tag|]; done. }
  rewrite matter_unfold, matter_detect_spec, Hfo, Hstrip.
  rewrite bool_decide_eq_false_2 by done.
  pose proof (formatOptions_cases lower opts st) as Hc. rewrite Hfo in Hc.
  destruct Hc as (_ & _ & _ & (a & Ha & H0 & H1) & Hl).
  rewrite Hpair in H0, H1. cbn [fst snd] in H0, H1.
  rewrite Ha, H0, H1, Hl. cbn [truthy]. fold loose.
  unfold search. rewrite bool_decide_eq_false_2 by done. rewrite Hloc.
  rewrite matter_extract_spec.
  assert (Hlt : (length header + length tag
                 <? length header + length tag + S (length m)) = true)
    by (apply Nat.ltb_lt; lia).
  rewrite Hlt, Hmeta, Hbody.
  assert (Hl' : language lower st1 o str header (length header + length tag)
                = VStr lang).
  { unfold language. rewrite Htagsub, Hlang.
    by rewrite bool_decide_eq_false_2. }
  by rewrite Hl', Hf.
Qed.

Lemma language_behind_header_witness :
  let st := State {[ 1%positive := {[ p_lang := VStr (js "yaml") ]} ]} ∅
                  {[ js "toml" := VFun echo ]} [] [] in
  let st1 := (formatOptions ascii_lower (Opts 1%positive) st).2 in
  let tag := js " TOML " in
  let m := js "foo = 1" in
  let str := dashes ++ tag ++ LF :: m ++ LF :: dashes ++ LF :: js "baz" in
  (matter ascii_lower echoes (VStr str) (Opts 1%positive) st).1
  = inr (Result str (VStr m) (js "baz"))
  ∧ calls (matter ascii_lower echoes (VStr str) (Opts 1%positive) st).2
    = [(m, false)].
Proof.
  cbv zeta.
  set (st := State {[ 1%positive := {[ p_lang := VStr (js "yaml") ]} ]} ∅
                   {[ js "toml" := VFun echo ]} [] []).
  set (st1 := (formatOptions ascii_lower (Opts 1%positive) st).2).
  assert (H1 : formatOptions ascii_lower (Opts 1%positive) st = (inr 1%positive, st1))
    by (vm_compute; reflexivity).
  assert (H2 : opt_pair st (Opts 1%positive) = (VStr dashes, VStr dashes))
    by (vm_compute; reflexivity).
  assert (H3 : head (dashes ++ js " TOML " ++ [LF]) ≠ Some BOM)
    by (vm_compute; discriminate).
  assert (H4 : LF ∉ js " TOML ").
  { intros H. apply list_elem_of_In in H. vm_compute in H. intuition discriminate. }
  assert (H5 : truthy (opt_loose st (Opts 1%positive)) = true ∨ js " TOML " = []
               ∨ head (js " TOML ") ≠ last dashes).
  { right; right. vm_compute. discriminate. }
  assert (H6 : indexOf (LF :: js "foo = 1" ++ LF :: dashes) (LF :: dashes) 0
               = Some (S (length (js "foo = 1")))) by (vm_compute; reflexivity).
  assert (H7 : ascii_lower (trim (js " TOML ")) = js "toml")
    by (vm_compute; reflexivity).
  assert (H8 : js "toml" ≠ []) by (vm_compute; discriminate).
  assert (H9 : chosen st1 (obj_get st1 1%positive p_parsers) (js "toml") = VFun echo)
    by (vm_compute; reflexivity).
  rewrite (language_behind_header ascii_lower echoes (Opts 1%positive) st
             1%positive st1 dashes dashes (js " TOML ") (js "toml") echo
             (js "foo = 1") (js "baz") H1 H2 H3 H4 H5 H6 H7 H8 H9).
  split; vm_compute; reflexivity.
Defined.

(** ** The pair of delimiters *)

Lemma filled_snd_nonnull l : nonnull (filled l).2 = true.
Proof.
  pose proof (filled_nonnull l) as H. unfold filled in *. cbn [fst snd] in *.
  by destruct (nonnull (default VUndefined (l !! 1))) eqn:E.
Qed.

Lemma filled_again l t :
  filled ((filled l).1 :: (filled l).2 :: t) = filled l.
Proof.
  pose proof (filled_nonnull l) as H1. pose proof (filled_snd_nonnull l) as H2.
  destruct (filled l) as [h f]. cbn [fst snd] in *.
  unfold filled. cbn [lookup list_lookup from_option id]. by rewrite H1, H2.
Qed.

(** X5: [formatDelimiters] makes a pair of what it is given.  A string
    serves as header and footer; [undefined] or [null] gives the default
    twice; in an array that accepts the two assignments a missing first entry
    is taken from the second and a missing second from the first, the
    entries behind them are kept; any other value is refused.  With
    [nothrow] it returns [null] where it would throw.  An array that refuses
    one of the two assignments makes it throw a TypeError, with [nothrow]
    too. *)
Theorem formatDelimiters_pairs delims nothrow st :
  let out := formatDelimiters delims nothrow st in
  let a := (delims_array st delims).1 in
  (∀ d, delims = VStr d ->
     out.1 = inr (Some a) ∧ arrs st !! a = None
     ∧ arrs out.2 !! a = Some [VStr d; VStr d])
  ∧ (nonnull delims = false ->
     out.1 = inr (Some a) ∧ arrs st !! a = None
     ∧ arrs out.2 !! a = Some [VStr (js "---"); VStr (js "---")])
  ∧ (∀ a' l, delims = VArr a' -> arrs st !! a' = Some l -> arr_open st a' ->
     let d0 := default VUndefined (l !! 0) in
     let d1 := default VUndefined (l !! 1) in
     let h := if nonnull d0 then d0
              else if nonnull d1 then d1 else VStr (js "---") in
     let f := if nonnull d1 then d1 else h in
     a = a' ∧ arrs out.2 !! a = Some (h :: f :: drop 2 l)
     ∧ (is_string h = true -> is_string f = true -> out.1 = inr (Some a)))
  ∧ (delims_writable st delims ->
     is_string (opt_pair_of st delims).1 && is_string (opt_pair_of st delims).2
     = false ->
     out.1 = if nothrow then inr None else inl ErrDelims)
  ∧ (nonnull delims = true -> is_string delims = false ->
     caller_array delims = None ->
     out.1 = if nothrow then inr None else inl ErrDelims)
  ∧ (¬ delims_writable st delims -> out.1 = inl ErrType)
  ∧ objs out.2 = objs st ∧ registry out.2 = registry st
  ∧ calls out.2 = calls st ∧ delivered out.2 = delivered st
  ∧ (∀ l, l ≠ a -> arrs out.2 !! l = arrs st !! l).
Proof.
  cbv zeta.
  assert (Hopen : delims_writable st delims ->
            formatDelimiters delims nothrow st
            = (delims_outcome (delims_array st delims).2 nothrow
                              (delims_array st delims).1,
               arr_write st (delims_array st delims).1
                 ((filled (delims_array st delims).2).1
                  :: (filled (delims_array st delims).2).2
                  :: drop 2 (delims_array st delims).2))).
  { intros Hw. rewrite (formatDelimiters_open _ _ _ Hw).
    by destruct (delims_array st delims). }
  unfold opt_pair_of.
  split; [|split; [|split; [|split; [|split; [|split]]]]].
  - intros d ->. rewrite (Hopen I). cbn [delims_array fst snd].
    split; [reflexivity|]. split; [apply fresh_unused|]. apply arrs_arr_write_eq.
  - intros Hn. destruct delims; try discriminate Hn; rewrite (Hopen I);
      cbn [delims_array fst snd];
      (split; [reflexivity|]; split; [apply fresh_unused|];
       apply arrs_arr_write_eq).
  - intros a' l' -> Hl Ho. rewrite (Hopen Ho). cbn [delims_array fst snd].
    rewrite Hl. cbn [from_option id].
    split; [done|]. split; [apply arrs_arr_write_eq|].
    intros Hh Hf. unfold delims_outcome, filled. cbn [fst snd].
    by rewrite Hh, Hf.
  - intros Hw Hb. rewrite (Hopen Hw). cbn [fst]. unfold delims_outcome.
    rewrite Hb. by destruct nothrow.
  - intros Hn Hs Hc. destruct delims; try discriminate; rewrite (Hopen I);
      by destruct nothrow.
  - intros Hw. destruct delims as [| | | | | |a'|]; try (by destruct Hw).
    rewrite formatDelimiters_spec. cbn [delims_array delims_writable] in *.
    unfold delims_run.
    destruct (arr_locked st a' 0) eqn:A0; [done|].
    destruct (arr_locked st a' 1) eqn:A1; [done|]. by destruct Hw.
  - rewrite formatDelimiters_spec.
    destruct (delims_array st delims) as [a l]. cbn [fst snd]. unfold delims_run.
    destruct (arr_locked st a 0); [|destruct (arr_locked st a 1)];
      (repeat split; try done; intros l' Hne; cbn [snd];
       by rewrite arrs_arr_write_ne).
Qed.

(** X6: [formatDelimiters] on the array it has filled changes nothing and
    ends as before. *)
Theorem formatDelimiters_idempotent delims nothrow st :
  let out := formatDelimiters delims nothrow st in
  let a := (delims_array st delims).1 in
  formatDelimiters (VArr a) nothrow out.2 = out.
Proof.
  cbv zeta. rewrite !formatDelimiters_spec.
  destruct (delims_array st delims) as [a l] eqn:Ea.
  cbn [fst snd delims_array]. unfold delims_run.
  destruct (arr_locked st a 0) eqn:A0.
  { cbn [snd]. by rewrite A0. }
  destruct (arr_locked st a 1) eqn:A1; cbn [snd];
    rewrite !arr_locked_arr_write, A0, A1, arrs_arr_write_eq;
    cbn [from_option id]; rewrite arr_write_arr_write.
  - f_equal. f_equal. pose proof (filled_nonnull l) as Hn.
    assert (Hf : (filled (list_assign l 0 (filled l).1)).1 = (filled l).1).
    { unfold filled at 1. destruct (list_assign_0_lookup l (filled l).1) as [-> _].
      cbn [from_option id fst]. by rewrite Hn. }
    rewrite Hf. apply list_assign_0_again.
  - unfold delims_outcome. rewrite !filled_again. reflexivity.
Qed.

Lemma formatDelimiters_pairs_witness :
  let st := State ∅ {[ 1%positive := [VNull; VStr (js "~~~"); VNum 7] ]} ∅ [] [] in
  let out := formatDelimiters (VArr 1%positive) false st in
  arr_open st 1%positive
  ∧ out.1 = inr (Some 1%positive)
  ∧ arrs out.2 !! 1%positive = Some [VStr (js "~~~"); VStr (js "~~~"); VNum 7].
Proof.
  cbv zeta.
  set (st := State ∅ {[ 1%positive := [VNull; VStr (js "~~~"); VNum 7] ]} ∅ [] []).
  assert (Ho : arr_open st 1%positive) by (split; vm_compute; reflexivity).
  destruct (formatDelimiters_pairs (VArr 1%positive) false st)
    as (_ & _ & H & _).
  destruct (H 1%positive [VNull; VStr (js "~~~"); VNum 7] eq_refl eq_refl Ho)
    as (_ & H2 & H3).
  split; [exact Ho|]. split; [exact (H3 eq_refl eq_refl) | exact H2].
Defined.

(** ** What [matter.test] does not do *)

(** X7: [matter.test] throws nothing but the TypeError of an array given as
    [opts.delims] that refuses one of its two assignments (a frozen array),
    and that only when the text is a string that is not empty; with any other
    options it returns a boolean.  It calls no parser and no callback and
    writes neither an object nor the registry; of the arrays of the caller it
    writes at most the one given as [opts.delims], which it fills like
    [matter] does.  For a text that is no string or is empty it returns
    [false] and writes nothing. *)
Theorem matter_test_only_fills_delims str opts st :
  let out := matter_test str opts st in
  ((∃ b, out.1 = inr b)
   ∨ (out.1 = inl ErrType ∧ ¬ delims_writable st (opt_delims st opts)))
  ∧ (delims_writable st (opt_delims st opts) -> ∃ b, out.1 = inr b)
  ∧ (¬ delims_writable st (opt_delims st opts) ->
     is_string str = true -> str ≠ VStr [] -> out.1 = inl ErrType)
  ∧ objs out.2 = objs st ∧ registry out.2 = registry st
  ∧ calls out.2 = calls st ∧ delivered out.2 = delivered st
  ∧ (∀ l, caller_array (opt_delims st opts) ≠ Some l ->
       is_Some (arrs st !! l) -> arrs out.2 !! l = arrs st !! l)
  ∧ (is_string str = false ∨ str = VStr [] -> out = (inr false, st))
  ∧ (∀ a l, opt_delims st opts = VArr a -> arrs st !! a = Some l ->
       arr_open st a -> str ≠ VStr [] -> is_string str = true ->
       arrs out.2 !! a = Some ((filled l).1 :: (filled l).2 :: drop 2 l)).
Proof.
  cbv zeta.
  destruct str as [| | | |s| | |];
    try (split; [left; by eexists|]; repeat split; eauto; intros; discriminate).
  rewrite matter_test_spec.
  destruct (bool_decide_reflect (s = [])) as [->|Hs].
  { split; [left; by eexists|]. repeat split; eauto; intros; congruence. }
  cbv zeta.
  destruct (delims_array_caller st (opt_delims st opts)) as [Hnew Hsame].
  pose proof (delims_array_open st (opt_delims st opts)) as Hopen.
  assert (Hlocked : ¬ delims_writable st (opt_delims st opts) ->
            ¬ arr_open st (delims_array st (opt_delims st opts)).1).
  { destruct (opt_delims st opts); try (intros H; by destruct H). done. }
  destruct (delims_array st (opt_delims st opts)) as [a l] eqn:Ea.
  cbn [fst snd] in *.
  assert (Hkeep : ∀ l' vs, caller_array (opt_delims st opts) ≠ Some l' ->
            is_Some (arrs st !! l') ->
            arrs (arr_write st a vs) !! l' = arrs st !! l').
  { intros l' vs Hl' Hsome. destruct (decide (a = l')) as [<-|Hne].
    - destruct (caller_array (opt_delims st opts)) as [a'|] eqn:Ec.
      + destruct Hl'. f_equal. by apply Hsame.
      + rewrite Hnew in Hsome by done. by destruct Hsome.
    - by rewrite arrs_arr_write_ne. }
  unfold delims_run.
  destruct (arr_locked st a 0) eqn:A0; [|destruct (arr_locked st a 1) eqn:A1].
  - cbn [fst snd].
    assert (Hw : ¬ delims_writable st (opt_delims st opts)).
    { intros Hw. apply Hopen in Hw as [Hw _]. congruence. }
    split; [by right|]. repeat split; try done.
    + intros [H|H]; [discriminate | congruence].
    + intros a' l' Hd Hl [Ho _] _ _. rewrite Hd in Ea. cbn in Ea.
      injection Ea as <- _. congruence.
  - cbn [fst snd].
    assert (Hw : ¬ delims_writable st (opt_delims st opts)).
    { intros Hw. apply Hopen in Hw as [_ Hw]. congruence. }
    split; [by right|]. repeat split; try done.
    + intros l' Hl' Hsome. by apply Hkeep.
    + intros [H|H]; [discriminate | congruence].
    + intros a' l' Hd Hl [_ Ho] _ _. rewrite Hd in Ea. cbn in Ea.
      injection Ea as <- _. congruence.
  - unfold delims_outcome.
    set (st' := arr_write st a _).
    assert (Hout : ∃ b : bool,
              (match (if is_string (filled l).1 && is_string (filled l).2
                      then inr (Some a) else inr None : error + option loc) with
               | inl e => (inl e, st')
               | inr _ =>
                   match (filled l).1 with
                   | VStr h =>
                       match (filled l).2 with
                       | VStr f =>
                           (inr (test_locate (negb (truthy (opt_loose st opts)))
                                   h f s), st')
                       | _ => (inr false, st')
                       end
                   | _ => (inr false, st')
                   end
               end : (error + bool) * state) = (inr b, st')).
    { destruct (is_string _ && is_string _);
        (destruct (filled l).1; eauto; destruct (filled l).2; eauto). }
    destruct Hout as [b ->]. cbn [fst snd].
    split; [left; eauto|]. split; [eauto|]. split.
    { intros Hw. destruct (Hlocked Hw). by split. }
    repeat split.
    + intros l' Hl' Hsome. by apply Hkeep.
    + intros [H|H]; [discriminate | congruence].
    + intros a' l' Hd Hl _ _ _. rewrite Hd in Ea. cbn in Ea. rewrite Hl in Ea.
      injection Ea as <- <-. apply arrs_arr_write_eq.
Qed.

Lemma matter_test_only_fills_delims_witness :
  let st := State {[ 1%positive := {[ p_delims := VArr 1%positive ]} ]}
                  {[ 1%positive := [VStr (js "~~~")] ]} ∅ [] [] in
  let frozen := MkState {[ 1%positive := Object {[ p_delims := VArr 1%positive ]}
                                                (fun _ => false) ]}
                        {[ 1%positive := Array [VStr (js "~~~"); VStr (js "~~~")]
                                               (fun _ => true) ]}
                        ∅ false false [] [] in
  let out := matter_test (VStr (js "x")) (Opts 1%positive) st in
  arr_open st 1%positive
  ∧ out.1 = inr false
  ∧ arrs out.2 !! 1%positive = Some [VStr (js "~~~"); VStr (js "~~~")]
  ∧ ¬ delims_writable frozen (opt_delims frozen (Opts 1%positive))
  ∧ (matter_test (VStr (js "x")) (Opts 1%positive) frozen).1 = inl ErrType.
Proof.
  cbv zeta.
  set (st := State {[ 1%positive := {[ p_delims := VArr 1%positive ]} ]}
                   {[ 1%positive := [VStr (js "~~~")] ]} ∅ [] []).
  set (frozen := MkState _ _ _ _ _ _ _).
  assert (Ho : arr_open st 1%positive) by (split; vm_compute; reflexivity).
  assert (Hf : ¬ delims_writable frozen (opt_delims frozen (Opts 1%positive))).
  { intros [H _]. vm_compute in H. discriminate H. }
  destruct (matter_test_only_fills_delims (VStr (js "x")) (Opts 1%positive) st)
    as (_ & _ & _ & _ & _ & _ & _ & _ & _ & H).
  destruct (matter_test_only_fills_delims (VStr (js "x")) (Opts 1%positive) frozen)
    as (_ & _ & G & _).
  split; [exact Ho|]. split; [vm_compute; reflexivity|]. split.
  - apply (H 1%positive [VStr (js "~~~")]); try reflexivity; try exact Ho;
      discriminate.
  - split; [exact Hf|]. apply (G Hf); [reflexivity | discriminate].
Defined.

(** ** Options that are normalised already *)

Lemma has_prop_obj_get st o k v : has_prop st o k v -> obj_get st o k = v.
Proof. intros (m & Hm & Hk). unfold obj_get. rewrite Hm. cbn. by rewrite Hk. Qed.

Lemma has_prop_obj_set_eq st o k v : has_prop (obj_set st o k v) o k v.
Proof.
  eexists. rewrite objs_obj_set, lookup_insert_eq.
  split; [reflexivity|]. apply lookup_insert_eq.
Qed.

Lemma has_prop_obj_set_ne st o k v k' v' :
  k ≠ k' -> has_prop st o k' v' -> has_prop (obj_set st o k v) o k' v'.
Proof.
  intros Hne (m & Hm & Hk). eexists. rewrite objs_obj_set, lookup_insert_eq.
  split; [reflexivity|].
  rewrite lookup_insert_ne by done. by rewrite Hm.
Qed.

Lemma obj_set_same st o k v : has_prop st o k v -> obj_set st o k v = st.
Proof.
  intros (m & Hm & Hk). unfold objs in Hm. rewrite lookup_fmap in Hm.
  destruct (obj_store st !! o) as [x|] eqn:Ex; [|discriminate].
  injection Hm as <-. unfold obj_set. rewrite Ex. cbn [from_option id].
  rewrite (insert_id (props x) k v Hk).
  assert (Hx : Object (props x) (readonly x) = x) by (by destruct x).
  rewrite Hx, (insert_id (obj_store st) o x Ex). by destruct st.
Qed.

Lemma arr_write_same st a l : arrs st !! a = Some l -> arr_write st a l = st.
Proof.
  intros H. unfold arrs in H. rewrite lookup_fmap in H.
  destruct (arr_store st !! a) as [x|] eqn:Ex; [|discriminate].
  injection H as <-. unfold arr_write. rewrite Ex. cbn [from_option id].
  assert (Hx : Array (elems x) (fixed x) = x) by (by destruct x).
  rewrite Hx, (insert_id (arr_store st) a x Ex). by destruct st.
Qed.

Lemma formatOptions_normal lower opts st o st1 :
  formatOptions lower opts st = (inr o, st1) -> ∃ lang, normal_options st1 o lang.
Proof.
  destruct p_keys as (K1 & K2 & K3 & K4 & K5 & K6).
  destruct opts as [|o'|]; [| |discriminate].
  - rewrite formatOptions_NoOpts. cbv zeta. intros [= <- <-].
    set (a := fresh (dom (arrs st))).
    destruct (default_options_lookup a) as (L1 & L2 & L3 & L4).
    assert (Ho : ∀ k v, default_options a !! k = Some v ->
              has_prop (obj_write (arr_write st a [VStr (js "---"); VStr (js "---")])
                          (fresh (dom (objs st))) (default_options a))
                       (fresh (dom (objs st))) k v).
    { intros k v Hk. eexists. rewrite objs_obj_write, lookup_insert_eq. done. }
    exists (js "yaml"). split; [by apply Ho|]. split; [eexists; by apply Ho|].
    split; [exists VNull; split; [by apply Ho | done]|].
    exists a, (js "---"), (js "---"), []. split; [by apply Ho|].
    change (arrs (obj_write ?s _ _)) with (arrs s). apply arrs_arr_write_eq.
  - intros Hfo. pose proof Hfo as Hinv.
    apply formatOptions_Opts_inv in Hinv as (-> & Hw & s & El & ->).
    rewrite (formatOptions_open _ _ _ Hw), El in Hfo. cbv zeta in Hfo.
    unfold delims_outcome in Hfo.
    destruct (is_string (filled _).1) eqn:E1; [|discriminate].
    destruct (is_string (filled _).2) eqn:E2; [|discriminate].
    clear Hfo. unfold normalized.
    destruct (delims_array st (obj_get st o' p_delims)) as [a l].
    cbn [fst snd] in *.
    destruct (filled l).1 as [| | | |h| | |]; try discriminate.
    destruct (filled l).2 as [| | | |f| | |]; try discriminate.
    exists (lower (trim s)). split; [|split; [|split]].
    + do 3 (apply has_prop_obj_set_ne; [done|]).
      destruct (has_prop_obj_set_eq (obj_set st o' p_lang (VStr s)) o' p_lang
                  (VStr (lower (trim s)))) as (m & Hm & Hk).
      exists m. done.
    + eexists. apply has_prop_obj_set_eq.
    + eexists. split.
      * apply has_prop_obj_set_ne; [done|]. apply has_prop_obj_set_eq.
      * by destruct (nonnull (obj_get st o' p_parsers)) eqn:E,
          (obj_get st o' p_parsers).
    + exists a, h, f, (drop 2 l). split.
      * do 2 (apply has_prop_obj_set_ne; [done|]). apply has_prop_obj_set_eq.
      * do 3 (change (arrs (obj_set ?s _ _ _)) with (arrs s)).
        apply arrs_arr_write_eq.
Qed.

(** The options [formatOptions] returns accept its assignments. *)
Lemma formatOptions_leaves_writable lower opts st o st1 :
  formatOptions lower opts st = (inr o, st1) -> opts_writable st1 (Opts o).
Proof.
  destruct opts as [|o'|]; [| |discriminate].
  - rewrite formatOptions_NoOpts. cbv zeta. intros [= <- <-].
    set (a := fresh (dom (arrs st))). set (o := fresh (dom (objs st))).
    destruct (default_options_lookup a) as (L1 & L2 & L3 & L4).
    assert (Hl : ∀ k, obj_locked (obj_write (arr_write st a [VStr (js "---");
                                                             VStr (js "---")])
                                            o (default_options a)) o k = false).
    { intros k. unfold obj_locked, obj_write; cbn [obj_store].
      by rewrite lookup_insert_eq. }
    repeat split; try apply Hl.
    rewrite obj_get_obj_write, L3. cbn [from_option id delims_writable].
    split; change (arr_locked (obj_write ?s _ _) ?x ?i) with (arr_locked s x i);
      rewrite arr_locked_arr_write; apply arr_locked_None, fresh_unused.
  - intros Hfo.
    pose proof (formatOptions_written lower o' st) as Hw. rewrite Hfo in Hw.
    apply written_frame in Hw as (_ & _ & _ & _ & _ & Hol & Hal & _).
    apply formatOptions_Opts_inv in Hfo as (-> & (W1 & W2 & W3 & W4 & Wd) & s & El & ->).
    destruct (normalized_reads st o' s (lower (trim s))) as (_ & R2 & _).
    cbn [snd] in Hol, Hal.
    unfold opts_writable. rewrite !Hol, R2. repeat split; try done.
    all: rewrite Hal; by apply (delims_array_open st _ Wd).
Qed.

Lemma formatOptions_fixed lower st o lang :
  opts_writable st (Opts o) ->
  normal_options st o lang -> lower (trim lang) = lang ->
  formatOptions lower (Opts o) st = (inr o, st).
Proof.
  intros Hw (Hlang & (b & Hloose) & (p & Hp & Hpu) & (a & h & f & t & Hd & Ha)) Hfix.
  rewrite (formatOptions_open _ _ _ Hw). unfold lang_or_default.
  rewrite (has_prop_obj_get _ _ _ _ Hlang). cbn [nonnull]. cbv zeta.
  rewrite (has_prop_obj_get _ _ _ _ Hd). cbn [delims_array]. rewrite Ha.
  cbn [from_option id fst snd]. unfold delims_outcome.
  assert (Hf : filled (VStr h :: VStr f :: t) = (VStr h, VStr f)) by reflexivity.
  rewrite Hf. cbn [fst snd is_string andb]. f_equal.
  unfold normalized. rewrite (has_prop_obj_get _ _ _ _ Hd). cbn [delims_array].
  rewrite Ha. cbn [from_option id fst snd]. rewrite Hf. cbn [fst snd drop].
  rewrite Hfix. rewrite (has_prop_obj_get _ _ _ _ Hp).
  rewrite (has_prop_obj_get _ _ _ _ Hloose). cbn [truthy].
  rewrite !(obj_set_same st o p_lang _ Hlang). rewrite drop_0.
  rewrite (arr_write_same st a _ Ha).
  rewrite (obj_set_same st o p_delims _ Hd).
  assert (Hpp : (if nonnull p then p else VNull) = p) by (by destruct p).
  rewrite Hpp, (obj_set_same st o p_parsers _ Hp).
  by rewrite (obj_set_same st o p_loose _ Hloose).
Qed.

Lemma formatOptions_again lower opts st o st1 lang :
  formatOptions lower opts st = (inr o, st1) ->
  obj_get st1 o p_lang = VStr lang -> lower (trim lang) = lang ->
  formatOptions lower (Opts o) st1 = (inr o, st1).
Proof.
  intros Hfo Hlang Hfix.
  destruct (formatOptions_normal _ _ _ _ _ Hfo) as [lg Hn].
  pose proof (has_prop_obj_get _ _ _ _ (proj1 Hn)) as Hlg.
  rewrite Hlang in Hlg. injection Hlg as <-.
  apply (formatOptions_fixed lower st1 o lang); try done.
  by apply (formatOptions_leaves_writable lower opts st).
Qed.

(** X8: [formatOptions] on the options it has returned changes nothing, when
    lower-casing and trimming leave the language of these options as it is.
    (This is how [matter.readFileSync] and [matter.readFile] use it: they
    normalise the options and pass them to [matter], which does it again.) *)
Theorem formatOptions_idempotent lower opts st o st1 lang :
  formatOptions lower opts st = (inr o, st1) ->
  obj_get st1 o p_lang = VStr lang -> lower (trim lang) = lang ->
  formatOptions lower (Opts o) st1 = (inr o, st1).
Proof. apply formatOptions_again. Qed.

Lemma formatOptions_idempotent_witness :
  let st := State {[ 1%positive := {[ p_lang := VStr (js " TOML ");
                                      p_delims := VStr (js "~~~") ]} ]} ∅ ∅ [] [] in
  let st1 := (formatOptions ascii_lower (Opts 1%positive) st).2 in
  obj_get st1 1%positive p_lang = VStr (js "toml")
  ∧ formatOptions ascii_lower (Opts 1%positive) st1 = (inr 1%positive, st1).
Proof.
  cbv zeta.
  set (st := State {[ 1%positive := {[ p_lang := VStr (js " TOML ");
                                       p_delims := VStr (js "~~~") ]} ]} ∅ ∅ [] []).
  set (st1 := (formatOptions ascii_lower (Opts 1%positive) st).2).
  assert (H1 : formatOptions ascii_lower (Opts 1%positive) st = (inr 1%positive, st1))
    by (vm_compute; reflexivity).
  assert (H2 : obj_get st1 1%positive p_lang = VStr (js "toml"))
    by (vm_compute; reflexivity).
  assert (H3 : ascii_lower (trim (js "toml")) = js "toml")
    by (vm_compute; reflexivity).
  split; [exact H2|].
  exact (formatOptions_idempotent ascii_lower (Opts 1%positive) st 1%positive st1
           (js "toml") H1 H2 H3).
Defined.

Lemma matter_prenormalised lower code s opts st o st1 lang :
  formatOptions lower opts st = (inr o, st1) ->
  obj_get st1 o p_lang = VStr lang -> lower (trim lang) = lang ->
  matter lower code (VStr s) (Opts o) st1 = matter lower code (VStr s) opts st.
Proof.
  intros Hfo Hlang Hfix.
  rewrite !matter_unfold, !matter_detect_spec.
  by rewrite (formatOptions_again _ _ _ _ _ _ Hfo Hlang Hfix), Hfo.
Qed.

(** X9: on a string as text, [matter] with options that [formatOptions] has
    normalised before does what it does with the options as they were
    given, when lower-casing and trimming leave the language of these options
    as it is. *)
Theorem matter_on_normalised_options lower code s opts st o st1 lang :
  formatOptions lower opts st = (inr o, st1) ->
  obj_get st1 o p_lang = VStr lang -> lower (trim lang) = lang ->
  matter lower code (VStr s) (Opts o) st1 = matter lower code (VStr s) opts st.
Proof. apply matter_prenormalised. Qed.

Lemma matter_on_normalised_options_witness :
  let st := State ∅ ∅ {[ js "yaml" := VFun echo ]} [] [] in
  let st1 := (formatOptions ascii_lower NoOpts st).2 in
  let s := dashes ++ [LF] ++ js "a: 1" ++ [LF] ++ dashes in
  matter ascii_lower echoes (VStr s) (Opts 1%positive) st1
  = matter ascii_lower echoes (VStr s) NoOpts st.
Proof.
  cbv zeta.
  set (st := State ∅ ∅ {[ js "yaml" := VFun echo ]} [] []).
  set (st1 := (formatOptions ascii_lower NoOpts st).2).
  assert (H1 : formatOptions ascii_lower NoOpts st = (inr 1%positive, st1))
    by (vm_compute; reflexivity).
  assert (H2 : obj_get st1 1%positive p_lang = VStr (js "yaml"))
    by (vm_compute; reflexivity).
  assert (H3 : ascii_lower (trim (js "yaml")) = js "yaml")
    by (vm_compute; reflexivity).
  exact (matter_on_normalised_options ascii_lower echoes _ NoOpts st 1%positive st1
           (js "yaml") H1 H2 H3).
Defined.

(** ** Reading a file *)

(** X10: [matter.readFileSync] throws the error of the options whatever the
    file is, and the error of the read once the options are normalised; when
    the file is read it ends as [matter] on the content with the options as
    given, with the real path beside the result, or with the error of
    [fs.realpathSync]. *)
Theorem readFileSync_as_matter lower code read realpath opts st :
  (∀ e st1, formatOptions lower opts st = (inl e, st1) ->
     matter_readFileSync lower code read realpath opts st = (inl e, st1))
  ∧ (∀ o st1 e, formatOptions lower opts st = (inr o, st1) -> read = inl e ->
       matter_readFileSync lower code read realpath opts st = (inl e, st1))
  ∧ (∀ o st1 lang c,
       formatOptions lower opts st = (inr o, st1) ->
       obj_get st1 o p_lang = VStr lang -> lower (trim lang) = lang ->
       read = inr c ->
       matter_readFileSync lower code read realpath opts st
       = match matter lower code (VStr c) opts st with
         | (inl e, st') => (inl e, st')
         | (inr r, st') =>
             match realpath with
             | inl e => (inl e, st')
             | inr p => (inr (r, p), st')
             end
         end).
Proof.
  split; [|split].
  - intros e st1 Hfo. unfold matter_readFileSync, bind. by rewrite Hfo.
  - intros o st1 e Hfo ->. unfold matter_readFileSync, bind. by rewrite Hfo.
  - intros o st1 lang c Hfo Hlang Hfix ->.
    rewrite <- (matter_prenormalised lower code c opts st o st1 lang Hfo Hlang Hfix).
    unfold matter_readFileSync. unfold bind at 1. rewrite Hfo.
    unfold bind at 1. rewrite ret_run. unfold bind at 1.
    destruct (matter lower code (VStr c) (Opts o) st1) as [[e|r] st']; [done|].
    by destruct realpath.
Qed.

Lemma readFileSync_as_matter_witness :
  let st := State ∅ ∅ {[ js "yaml" := VFun echo ]} [] [] in
  let c := dashes ++ [LF] ++ js "a: 1" ++ [LF] ++ dashes ++ [LF] ++ js "baz" in
  (matter_readFileSync ascii_lower echoes (inr c) (inr (js "/doc.md")) NoOpts st).1
  = inr (Result c (VStr (js "a: 1")) (js "baz"), js "/doc.md").
Proof.
  cbv zeta.
  set (st := State ∅ ∅ {[ js "yaml" := VFun echo ]} [] []).
  set (c := dashes ++ [LF] ++ js "a: 1" ++ [LF] ++ dashes ++ [LF] ++ js "baz").
  set (st1 := (formatOptions ascii_lower NoOpts st).2).
  assert (H1 : formatOptions ascii_lower NoOpts st = (inr 1%positive, st1))
    by (vm_compute; reflexivity).
  assert (H2 : obj_get st1 1%positive p_lang = VStr (js "yaml"))
    by (vm_compute; reflexivity).
  assert (H3 : ascii_lower (trim (js "yaml")) = js "yaml")
    by (vm_compute; reflexivity).
  destruct (readFileSync_as_matter ascii_lower echoes (inr c) (inr (js "/doc.md")) NoOpts st)
    as (_ & _ & H).
  rewrite (H 1%positive st1 (js "yaml") c H1 H2 H3 eq_refl).
  vm_compute. reflexivity.
Defined.

Lemma matter_delivers_nothing lower code str opts st :
  delivered (matter lower code str opts st).2 = delivered st.
Proof.
  pose proof (matter_store lower code str opts st) as Hst. cbv zeta in Hst.
  destruct (formatOptions lower opts st) as [r st1] eqn:Ef.
  apply formatOptions_frame in Ef as (_ & _ & Hd). cbn [snd] in Hst.
  destruct Hst as [[_ ->]|[_ [->|(f & t & l & ->)]]]; [done..|].
  by rewrite (proj2 (call_calls _ _ _ _)).
Qed.

(** X11: when the read of [matter.readFile] succeeds, the callback is called
    once, with [null] as error and the result of [matter] with the real path,
    if [matter] and [fs.realpathSync] return; if one of them throws, the
    callback is not called and the exception is not caught. *)
Theorem readFile_delivers_once lower code o realpath c st :
  let out := readFile_done lower code o realpath (fs_err (ReadOk c))
               (fs_content (ReadOk c)) st in
  match matter lower code (VStr c) (Opts o) st, realpath with
  | (inr r, st'), inr p =>
      out = (inr tt, log_callback st' VNull (Some (r, p)))
      ∧ delivered out.2 = delivered st ++ [(VNull, Some (r, p))]
  | (inr r, st'), inl e => out = (inl e, st') ∧ delivered out.2 = delivered st
  | (inl e, st'), _ => out = (inl e, st') ∧ delivered out.2 = delivered st
  end.
Proof.
  cbv zeta. pose proof (matter_delivers_nothing lower code (VStr c) (Opts o) st) as Hd.
  assert (Hout : readFile_done lower code o realpath (fs_err (ReadOk c))
                   (fs_content (ReadOk c)) st
                 = match matter lower code (VStr c) (Opts o) st with
                   | (inl e, st') => (inl e, st')
                   | (inr r, st') =>
                       match realpath with
                       | inl e => (inl e, st')
                       | inr p => (inr tt, log_callback st' VNull (Some (r, p)))
                       end
                   end).
  { unfold readFile_done, bind, fs_err, fs_content. cbn [truthy]. rewrite ret_run.
    destruct (matter lower code (VStr c) (Opts o) st) as [[e|r] st']; [done|].
    by destruct realpath. }
  rewrite Hout.
  destruct (matter lower code (VStr c) (Opts o) st) as [[e|r] st']; cbn [snd] in Hd.
  - by destruct realpath.
  - destruct realpath as [e|p]; [done|]. split; [done|].
    cbn [snd log_callback delivered]. by rewrite Hd.
Qed.

(** ** The parser that is used *)

(** X12: a function given as [opts.parsers] parses every block.  [matter]
    then never throws 'No parser found', and for a block with a metadata
    region that is not empty it calls that function, whatever language the
    header or [opts.lang] names and whatever the registry holds. *)
Theorem function_parser_overrides lower code s o st f :
  obj_get st o p_parsers = VFun f ->
  let out := matter lower code (VStr s) (Opts o) st in
  (∀ lang, out.1 ≠ inl (ErrNoParser lang))
  ∧ (∀ s' o' h l ds de bs st1,
       matter_detect lower (VStr s) (Opts o) st
       = (inr (Block s' o' h l ds de bs), st1) ->
       ds < de ->
       out = with_data s' (substr_from s' bs)
               (call (code f) (metadata s' ds de) l st1)).
Proof.
  intros Hp. cbv zeta.
  assert (Hblock : ∀ s' o' h l ds de bs st1,
            matter_detect lower (VStr s) (Opts o) st
            = (inr (Block s' o' h l ds de bs), st1) ->
            ds < de ->
            matter_extract lower code s' o' h l ds de bs st1
            = with_data s' (substr_from s' bs)
                (call (code f) (metadata s' ds de) l st1)).
  { intros s' o' h l ds de bs st1 Hd Hlt.
    pose proof (matter_detect_inv _ _ _ _ _ _ Hd) as (o2 & h2 & ft & Hfo & _ & Hs).
    symmetry in Hs.
    pose proof (search_str (strip_bom s) o2 (truthy (opt_loose st (Opts o))) h2 ft)
      as Hstr.
    rewrite Hs in Hstr. destruct Hstr as (_ & -> & _ & _).
    apply formatOptions_Opts_inv in Hfo as (-> & _ & s0 & _ & ->).
    destruct (normalized_reads st o s0 (lower (trim s0)))
      as (_ & _ & _ & _ & R5 & R6 & _).
    rewrite Hp in R6. cbn [nonnull] in R6.
    rewrite matter_extract_spec. apply Nat.ltb_lt in Hlt. rewrite Hlt.
    unfold language. rewrite R5, R6.
    by destruct (bool_decide _). }
  split.
  - intros lang. rewrite matter_unfold.
    destruct (matter_detect lower (VStr s) (Opts o) st) as [[e|fd] st1] eqn:Ed.
    + cbn [fst]. intros [= ->]. revert Ed. rewrite matter_detect_spec.
      pose proof (formatOptions_cases lower (Opts o) st) as Hc.
      destruct (formatOptions lower (Opts o) st) as [[e|o'] st0].
      * intros [= -> _]. destruct Hc as [[? _]|[[? _]|[? _]]]; discriminate.
      * destruct (bool_decide _); [discriminate|].
        destruct (obj_get st0 o' p_delims); try discriminate.
        destruct (arr_get st0 _ 0); try discriminate.
        destruct (arr_get st0 _ 1); discriminate.
    + destruct fd as [s'|s' o' h l ds de bs]; [discriminate|].
      destruct (Nat.ltb_spec ds de) as [Hlt|Hge].
      * rewrite (Hblock _ _ _ _ _ _ _ _ eq_refl Hlt). unfold with_data, call.
        cbn [fst]. by destruct (code f _ _ _) as [[v|v] st2].
      * rewrite matter_extract_spec.
        destruct (Nat.ltb_spec ds de); [lia | discriminate].
  - intros s' o' h l ds de bs st1 Hd Hlt. rewrite matter_unfold, Hd.
    by apply Hblock.
Qed.

Lemma function_parser_overrides_witness :
  let st := State {[ 1%positive := {[ p_parsers := VFun echo ]} ]} ∅ ∅ [] [] in
  let s := js "---nothing" ++ [LF] ++ js "10" ++ [LF] ++ dashes ++ [LF] ++ js "ok" in
  (matter ascii_lower echoes (VStr s) (Opts 1%positive) st).1
  = inr (Result s (VStr (js "10")) (js "ok")).
Proof.
  cbv zeta.
  set (st := State {[ 1%positive := {[ p_parsers := VFun echo ]} ]} ∅ ∅ [] []).
  set (s := js "---nothing" ++ [LF] ++ js "10" ++ [LF] ++ dashes ++ [LF] ++ js "ok").
  assert (Hp : obj_get st 1%positive p_parsers = VFun echo) by reflexivity.
  destruct (function_parser_overrides ascii_lower echoes s 1%positive st echo Hp)
    as [_ H].
  destruct (matter_detect ascii_lower (VStr s) (Opts 1%positive) st)
    as [out st1] eqn:Ed.
  assert (Hout : out = inr (Block s 1%positive dashes false 10 13 18)).
  { change out with (out, st1).1. rewrite <- Ed. vm_compute. reflexivity. }
  subst out. rewrite (H _ _ _ _ _ _ _ _ eq_refl); [|lia].
  vm_compute. reflexivity.
Defined.

(** X13: with a parser of the program itself, [matter.parsers.yaml] or
    [matter.parsers.toml], chosen for a block, [matter] does not throw: the
    parser puts its library into the module variable, then calls the
    library's function, and [matter] returns what that returns as [data], or
    [null] when it throws, and the body behind the block. *)
Theorem builtin_parsers_swallow lower code str opts st s o h l ds de bs st1 lang f :
  matter_detect lower str opts st = (inr (Block s o h l ds de bs), st1) ->
  ds < de ->
  language lower st1 o s h ds = VStr lang ->
  chosen st1 (obj_get st1 o p_parsers) lang = VFun f ->
  (∀ safeLoad,
     (∀ text loose st0, code f text loose st0 = parsers_yaml safeLoad text loose st0) ->
     let lib := safeLoad (metadata s ds de) l (load_yaml st1) in
     matter lower code str opts st
     = (inr (Result s (match lib.1 with
                       | Returns v => v
                       | Throws _ => VNull
                       end) (substr_from s bs)),
        log_call (keep_records st1 lib.2) (metadata s ds de) l))
  ∧ (∀ parse,
       (∀ text loose st0, code f text loose st0 = parsers_toml parse text loose st0) ->
       let lib := parse (metadata s ds de) (load_toml st1) in
       matter lower code str opts st
       = (inr (Result s (match lib.1 with
                         | Returns v => v
                         | Throws _ => VNull
                         end) (substr_from s bs)),
          log_call (keep_records st1 lib.2) (metadata s ds de) l)).
Proof.
  intros Hd Hlt Hlang Hf. apply Nat.ltb_lt in Hlt.
  split; intros g Hg; cbv zeta;
    rewrite matter_unfold, Hd, matter_extract_spec, Hlt, Hlang, Hf;
    unfold with_data, call; rewrite Hg.
  - unfold parsers_yaml. by destruct (g _ _ _) as [[v|v] st2].
  - unfold parsers_toml. by destruct (g _ _) as [[v|v] st2].
Qed.

Lemma builtin_parsers_swallow_witness :
  let failing : parser := fun _ _ st => (Throws (VStr (js "bad")), st) in
  let code : loc -> parser := fun _ => parsers_yaml failing in
  let st := State ∅ ∅ {[ js "yaml" := VFun 1%positive ]} [] [] in
  let s := dashes ++ [LF] ++ js "!!" ++ [LF] ++ dashes in
  (matter ascii_lower code (VStr s) NoOpts st).1 = inr (Result s VNull [])
  ∧ fm_yaml st = false
  ∧ fm_yaml (matter ascii_lower code (VStr s) NoOpts st).2 = true.
Proof.
  cbv zeta.
  set (failing := (fun _ _ st => (Throws (VStr (js "bad")), st)) : parser).
  set (code := (fun _ => parsers_yaml failing) : loc -> parser).
  set (st := State ∅ ∅ {[ js "yaml" := VFun 1%positive ]} [] []).
  set (s := dashes ++ [LF] ++ js "!!" ++ [LF] ++ dashes).
  destruct (matter_detect ascii_lower (VStr s) NoOpts st) as [out st1] eqn:Ed.
  assert (Hout : out = inr (Block s 1%positive dashes false 3 6 10)).
  { change out with (out, st1).1. rewrite <- Ed. vm_compute. reflexivity. }
  subst out.
  assert (Hst1 : st1 = (matter_detect ascii_lower (VStr s) NoOpts st).2)
    by (by rewrite Ed).
  assert (Hlang : language ascii_lower st1 1%positive s dashes 3 = VStr (js "yaml"))
    by (rewrite Hst1; vm_compute; reflexivity).
  assert (Hch : chosen st1 (obj_get st1 1%positive p_parsers) (js "yaml")
                = VFun 1%positive)
    by (rewrite Hst1; vm_compute; reflexivity).
  destruct (builtin_parsers_swallow ascii_lower code (VStr s) NoOpts st s 1%positive
              dashes false 3 6 10 st1 (js "yaml") 1%positive Ed ltac:(lia) Hlang Hch)
    as [H _].
  rewrite (H failing (fun _ _ _ => eq_refl)).
  split; [vm_compute; reflexivity|]. split; reflexivity.
Defined.

(** ** The errors of [matter] *)



(** ** An empty footer *)

(** X15: with the empty string as footer the metadata region is always empty:
    the newline behind the header's line ends the block, [matter] calls no
    parser and [data] is [null]. *)
Theorem empty_footer_no_metadata lower code s opts st header :
  opt_pair st opts = (VStr header, VStr []) ->
  calls (matter lower code (VStr s) opts st).2 = calls st
  ∧ (∀ r, (matter lower code (VStr s) opts st).1 = inr r -> data r = VNull)
  ∧ (∀ loose ds de bs,
       matter_locate loose header [] (strip_bom s) = Present ds de bs -> ds = de).
Proof.
  intros Hpair.
  assert (Hloc : ∀ loose str ds de bs,
            matter_locate loose header [] str = Present ds de bs -> ds = de).
  { intros loose str ds de bs H.
    apply block_inside in H as (_ & _ & Hle & Hds & _ & _ & _ & Hfirst & _).
    destruct (decide (ds = de)) as [|Hne]; [done|]. exfalso.
    apply (Hfirst ds); [lia | lia |].
    rewrite <- (Nat.add_0_r ds), <- lookup_drop in Hds.
    destruct (drop ds str) as [|c t]; [discriminate|].
    cbn in Hds. injection Hds as ->. cbn. by rewrite take_0. }
  split; [|split; [|by eauto]].
  - rewrite matter_unfold.
    destruct (matter_detect lower (VStr s) opts st) as [[e|f] st1] eqn:Ed;
      pose proof (matter_detect_frame _ _ _ _ _ _ Ed) as (_ & Hcalls & _);
      [done|].
    apply matter_detect_inv in Ed as (o & h & ft & _ & Hp & ->).
    rewrite Hpair in Hp. injection Hp as <- <-.
    destruct (search _ _ _ _ _) as [s0|s0 o0 h0 l ds de bs] eqn:Es; [done|].
    apply search_inv in Es as (_ & _ & Es). apply Hloc in Es as ->.
    rewrite matter_extract_spec, Nat.ltb_irrefl. done.
  - intros r. rewrite matter_unfold.
    destruct (matter_detect lower (VStr s) opts st) as [[e|f] st1] eqn:Ed;
      [discriminate|].
    apply matter_detect_inv in Ed as (o & h & ft & _ & Hp & ->).
    rewrite Hpair in Hp. injection Hp as <- <-.
    destruct (search _ _ _ _ _) as [s0|s0 o0 h0 l ds de bs] eqn:Es.
    + by intros [= <-].
    + apply search_inv in Es as (_ & _ & Es). apply Hloc in Es as ->.
      rewrite matter_extract_spec, Nat.ltb_irrefl. by intros [= <-].
Qed.

Lemma empty_footer_no_metadata_witness :
  let st := State {[ 1%positive := {[ p_delims := VArr 1%positive ]} ]}
                  {[ 1%positive := [VStr dashes; VStr []] ]}
                  {[ js "yaml" := VFun echo ]} [] [] in
  let s := dashes ++ [LF] ++ js "a: 1" ++ [LF] ++ js "rest" in
  opt_pair st (Opts 1%positive) = (VStr dashes, VStr [])
  ∧ calls (matter ascii_lower echoes (VStr s) (Opts 1%positive) st).2 = []
  ∧ matter_locate true dashes [] s = Present 3 3 4.
Proof.
  cbv zeta.
  set (st := State {[ 1%positive := {[ p_delims := VArr 1%positive ]} ]}
                   {[ 1%positive := [VStr dashes; VStr []] ]}
                   {[ js "yaml" := VFun echo ]} [] []).
  assert (H : opt_pair st (Opts 1%positive) = (VStr dashes, VStr []))
    by (vm_compute; reflexivity).
  destruct (empty_footer_no_metadata ascii_lower echoes
              (dashes ++ [LF] ++ js "a: 1" ++ [LF] ++ js "rest")
              (Opts 1%positive) st dashes H) as (H1 & _).
  split; [exact H|]. split; [exact H1|]. vm_compute. reflexivity.
Defined.
